(** * gcp_project_cleanup.py: the project cleanup report

  A shallow embedding of [src/gcp_project_cleanup.py] and the proofs of
  the properties its specification states about it.

  A Python [str] is modelled by the [string] of its UTF-8 bytes: [len]
  and [ljust] count characters, not bytes, while concatenation, search,
  [split] at a separator and the order of [sorted] are the same on the
  bytes as on the characters. A [dict] keyed by strings is modelled
  by [gmap string _], a [set] of strings by [gset string], the project
  dicts that [main] updates in place by a heap of records addressed by
  location, and exceptions and [print] by an error monad over the heap
  and the text written to standard output. *)

From Stdlib Require Import Ascii.
From stdpp Require Import gmap strings pretty list sorting.

(** ** Python string operations *)

Module Str.

(** The number of bytes of [s]. The program never asks for it; it bounds
    the rounds of [split] below. *)
Definition size (s : string) : nat := String.length s.
Global Arguments size : simpl never.

(** A byte starts a character unless it is a continuation byte
    [10xxxxxx] of a longer UTF-8 sequence. *)
Definition starts_char (c : ascii) : bool :=
  match c with Ascii _ _ _ _ _ _ b6 b7 => negb (b7 && negb b6) end.

(** [len(s)]: the number of characters (code points) of [s]. *)
Fixpoint len (s : string) : nat :=
  match s with
  | "" => 0
  | String c s' => (if starts_char c then 1 else 0) + len s'
  end.
Global Arguments len : simpl never.

(** [Some rest] when [s = p + rest], the test behind [s.startswith(p)]
    and [s.removeprefix(p)]. *)
Fixpoint strip_prefix (p s : string) : option string :=
  match p with
  | "" => Some s
  | String a p' =>
      match s with
      | "" => None
      | String b s' => if decide (a = b) then strip_prefix p' s' else None
      end
  end.

(** [s.startswith(p)] *)
Definition startswith (p s : string) : bool :=
  bool_decide (is_Some (strip_prefix p s)).

(** [s.removeprefix(p)] *)
Definition removeprefix (p s : string) : string :=
  default s (strip_prefix p s).

(** The split of [s] around the leftmost occurrence of [sep]:
    [Some (before, after)] with [s = before + sep + after], [None] when
    [sep] does not occur ([s.find(sep) == -1]). *)
Fixpoint cut (sep s : string) : option (string * string) :=
  match strip_prefix sep s with
  | Some rest => Some ("", rest)
  | None =>
      match s with
      | "" => None
      | String c s' => prod_map (String c) id <$> cut sep s'
      end
  end.

(** The split of [s] around the rightmost occurrence of [sep]
    ([s.rfind(sep)]). *)
Fixpoint rcut (sep s : string) : option (string * string) :=
  match s with
  | "" => pair "" <$> strip_prefix sep s
  | String c s' =>
      match rcut sep s' with
      | Some (a, b) => Some (String c a, b)
      | None => pair "" <$> strip_prefix sep s
      end
  end.

(** [sub in s] *)
Definition contains (sub s : string) : bool :=
  bool_decide (is_Some (cut sub s)).

(** [s.split(sep)] for a non-empty [sep] (every call site passes a
    non-empty literal): the pieces between the occurrences of [sep], found
    from the left and not overlapping.  Each cut removes at least one
    character, so [len s] rounds are enough. *)
Fixpoint split_rounds (n : nat) (sep s : string) : list string :=
  match n with
  | 0 => [s]
  | S n' =>
      match cut sep s with
      | None => [s]
      | Some (a, b) => a :: split_rounds n' sep b
      end
  end.

Definition split (sep s : string) : list string :=
  split_rounds (size s) sep s.

(** [s.rsplit(sep, 1)] for a non-empty [sep]: one split at the rightmost
    occurrence, or [s] alone. *)
Definition rsplit1 (sep s : string) : list string :=
  match rcut sep s with
  | Some (a, b) => [a; b]
  | None => [s]
  end.

(** [l[0]] and [l[-1]] on the result of a split, which is never empty. *)
Definition first (l : list string) : string := List.hd "" l.
Definition last (l : list string) : string := List.last l "".

(** [c * n] for a one-character string [c]. *)
Fixpoint times (c : ascii) (n : nat) : string :=
  match n with
  | 0 => ""
  | S n' => String c (times c n')
  end.

(** [s.ljust(w)] *)
Definition ljust (s : string) (w : nat) : string :=
  s +:+ times " " (w - len s).

(** [sep.join(l)] *)
Fixpoint join (sep : string) (l : list string) : string :=
  match l with
  | [] => ""
  | [x] => x
  | x :: l' => x +:+ sep +:+ join sep l'
  end.

(** [str(b)] for a [bool]. *)
Definition of_bool (b : bool) : string := if b then "True" else "False".

(** [s1 < s2]: by code points, left to right, which on UTF-8 text is the
    order of the bytes. *)
Definition ltb (s1 s2 : string) : bool := String.ltb s1 s2.

End Str.


(** ** Sorting

    [sorted] and [list.sort] are stable and compare keys with [<] only.
    The model inserts each element, from the last to the first, in front of
    the first element whose key is not smaller: a stable insertion sort. *)

Section stable_sort.
Context {A K : Type} (lt : K → K → bool) (key : A → K).

Fixpoint insert_by (x : A) (l : list A) : list A :=
  match l with
  | [] => [x]
  | y :: l' => if lt (key y) (key x) then y :: insert_by x l' else x :: l
  end.

Definition sort_by (l : list A) : list A := foldr insert_by [] l.

End stable_sort.

(** [sorted(l)] on strings. *)
Definition sorted (l : list string) : list string := sort_by Str.ltb id l.

(** [False < True] *)
Definition bool_ltb (a b : bool) : bool := negb a && b.

(** [<] on the tuples [(bool, str)]: the first components decide unless they
    are equal. *)
Definition key_ltb (k1 k2 : bool * string) : bool :=
  if decide (k1.1 = k2.1) then Str.ltb k1.2 k2.2 else bool_ltb k1.1 k2.1.

(** ** Data

    What the three client calls yield: the fields the program reads. *)

(** A result of [search_all_resources]: [r.name], [r.project],
    [r.display_name] and [r.create_time].  The time is a message field, and
    a result may come without it: [r.create_time] is then [None].  Of a
    time that is there the program reads [str(r.create_time.date())] only,
    and that text stands for it. *)
Record asset := Asset {
  asset_name : string;
  asset_project : string;
  asset_display_name : string;
  asset_create_time : option string;
}.

(** A result of [search_all_iam_policies]: [policy.resource] and
    [policy.policy.bindings], each binding with [role] and [members]. *)
Record binding := Binding { role : string; members : list string }.
Record iam_policy := IamPolicy { resource : string; bindings : list binding }.

(** A result of [list_recommendations]: [rec.content.operation_groups],
    each with [operations], each with [op.resource]. *)
Record operation := Operation { op_resource : string }.
Record operation_group := OperationGroup { operations : list operation }.
Record recommendation := Recommendation { operation_groups : list operation_group }.

(** A project dict.  [fetch_projects] creates it with four keys; [main]
    adds ["owners"] and ["inactive"].  A key not yet set is [None]. *)
Record project := Project {
  project_id : string;
  project_number : string;
  display_name : string;
  create_date : string;
  owners : option (list string);
  inactive : option bool;
}.

(** ** Exceptions, the heap of project dicts and standard output *)

Inductive exn :=
  | KeyError (key : string)
  | ValueError (msg : string)
  | AttributeError (msg : string)
  | SystemError (msg : string)
  | ClientError (msg : string).

Inductive outcome (A : Type) :=
  | Ok (a : A)
  | Raise (e : exn).
Arguments Ok {A} a.
Arguments Raise {A} e.

(** An uncaught exception ends the interpreter with status 1. *)
Definition exit_status {A} (o : outcome A) : nat :=
  match o with Ok _ => 0 | Raise _ => 1 end.

Definition loc := nat.

Record world := World {
  heap : list project;
  stdout : list string;
}.

Definition start : world := World [] [].

Definition M (A : Type) : Type := world → outcome A * world.

Definition ret {A} (a : A) : M A := λ w, (Ok a, w).

Definition raise {A} (e : exn) : M A := λ w, (Raise e, w).

Definition bind {A B} (m : M A) (k : A → M B) : M B :=
  λ w, match m w with
       | (Ok a, w') => k a w'
       | (Raise e, w') => (Raise e, w')
       end.

Declare Scope py_scope.
Delimit Scope py_scope with py.
Notation "x <- m ;; k" := (bind m (λ x, k))
  (at level 100, m at next level, right associativity) : py_scope.
Notation "m ;; k" := (bind m (λ _, k))
  (at level 100, right associativity) : py_scope.
Open Scope py_scope.

(** A new dict. *)
Definition alloc (d : project) : M loc :=
  λ w, (Ok (length (heap w)), World (heap w ++ [d]) (stdout w)).

(** The dict a reference points to.  A reference always points to a dict;
    [SystemError] stands for the case that cannot arise. *)
Definition load (p : loc) : M project :=
  λ w, match heap w !! p with
       | Some d => (Ok d, w)
       | None => (Raise (SystemError "dangling reference"), w)
       end.

Definition store (p : loc) (d : project) : M unit :=
  λ w, (Ok tt, World (<[p := d]> (heap w)) (stdout w)).

(** [print(line)] *)
Definition print (line : string) : M unit :=
  λ w, (Ok tt, World (heap w) (stdout w ++ [line])).

(** [p[key]] for a key set at creation. *)
Definition getitem (field : project → string) (p : loc) : M string :=
  d <- load p ;; ret (field d).

(** [p["owners"]] and [p["inactive"]] *)
Definition getitem_owners (p : loc) : M (list string) :=
  d <- load p ;;
  match owners d with
  | Some v => ret v
  | None => raise (KeyError "owners")
  end.

Definition getitem_inactive (p : loc) : M bool :=
  d <- load p ;;
  match inactive d with
  | Some v => ret v
  | None => raise (KeyError "inactive")
  end.

(** [p["owners"] = v] and [p["inactive"] = v] *)
Definition setitem_owners (p : loc) (v : list string) : M unit :=
  d <- load p ;;
  store p (Project (project_id d) (project_number d) (display_name d)
             (create_date d) (Some v) (inactive d)).

Definition setitem_inactive (p : loc) (v : bool) : M unit :=
  d <- load p ;;
  store p (Project (project_id d) (project_number d) (display_name d)
             (create_date d) (owners d) (Some v)).

(** [d[key]] on a dict keyed by strings. *)
Definition lookup_item {V} (d : gmap string V) (key : string) : M V :=
  match d !! key with
  | Some v => ret v
  | None => raise (KeyError key)
  end.

(** [for x in l: acc = body(acc, x)] *)
Fixpoint for_in {A S} (l : list A) (body : S → A → M S) (acc : S) : M S :=
  match l with
  | [] => ret acc
  | x :: l' => acc' <- body acc x ;; for_in l' body acc'
  end.

(** [for x in l: body(x)] *)
Fixpoint for_each {A} (l : list A) (body : A → M unit) : M unit :=
  match l with
  | [] => ret tt
  | x :: l' => body x ;; for_each l' body
  end.

(** [[f(x) for x in l]], also as a generator consumed at once. *)
Fixpoint map_m {A B} (f : A → M B) (l : list A) : M (list B) :=
  match l with
  | [] => ret []
  | x :: l' => y <- f x ;; ys <- map_m f l' ;; ret (y :: ys)
  end.

(** A paged response of a client: the items it yields and, when the
    transport fails, the exception raised in their place or after them.  A
    client that fails at once yields no item. *)
Record paged (A : Type) := Paged {
  items : list A;
  failure : option exn;
}.
Arguments Paged {A} items failure.
Arguments items {A} p.
Arguments failure {A} p.

(** [for x in response: acc = body(acc, x)] *)
Definition for_paged {A S} (response : paged A) (body : S → A → M S) (acc : S) : M S :=
  acc' <- for_in (items response) body acc ;;
  match failure response with
  | Some e => raise e
  | None => ret acc'
  end.

(** [a, b = l], with the messages of Python 3.14, which the script
    requires.  [rsplit(sep, 1)] yields one part or two: of the exceptions
    only the one for one part can arise. *)
Definition unpack2 (l : list string) : M (string * string) :=
  match l with
  | [a; b] => ret (a, b)
  | [] | [_] =>
      raise (ValueError ("not enough values to unpack (expected 2, got " +:+
                         pretty (length l) +:+ ")"))
  | _ =>
      raise (ValueError ("too many values to unpack (expected 2, got " +:+
                         pretty (length l) +:+ ")"))
  end.

(** [str(t.date())], for the time [t] of a search result. *)
Definition date_str (t : option string) : M string :=
  match t with
  | Some date => ret date
  | None => raise (AttributeError "'NoneType' object has no attribute 'date'")
  end.

(** [max(l)] on a non-empty iterable of lengths. *)
Definition max_of (l : list nat) : M nat :=
  match l with
  | [] => raise (ValueError "max() iterable argument is empty")
  | x :: l' => ret (foldl Nat.max x l')
  end.

(** [list.sort(key=key)]: the keys are computed first, in order; the list is
    then sorted on them.  The list object is updated in place; the model
    returns its new content. *)
Definition list_sort {K} (lt : K → K → bool) (key : loc → M K) (l : list loc) : M (list loc) :=
  keys <- map_m key l ;;
  ret ((sort_by lt fst (zip keys l)).*2).

(** The order in which [list(set(l))] lists the distinct elements of [l]:
    it depends on the hashes of the strings, which differ from one run of
    the interpreter to the next. *)
Class SetOrder := {
  list_of_set : list string → list string;
  list_of_set_NoDup l : NoDup (list_of_set l);
  list_of_set_elem l x : x ∈ list_of_set l ↔ x ∈ l;
}.

(** The three services, as the responses they give for a scope or parent. *)
Record cloud := Cloud {
  search_all_resources : string → paged asset;
  search_all_iam_policies : string → paged iam_policy;
  list_recommendations : string → paged recommendation;
}.

(** ** The program *)

Definition fetch_projects (api : cloud) (org_id : string) : M (list loc) :=
  let response := search_all_resources api ("organizations/" +:+ org_id) in
  for_paged response (λ projects r,
    name_parts <- unpack2 (Str.rsplit1 "/projects/" (asset_name r)) ;;
    let project_id := name_parts.2 in
    project_parts <- unpack2 (Str.rsplit1 "/" (asset_project r)) ;;
    let project_number := project_parts.2 in
    create_date <- date_str (asset_create_time r) ;;
    p <- alloc (Project project_id project_number (asset_display_name r)
                  create_date None None) ;;
    ret (projects ++ [p])) [].

(** The project a resource path belongs to:
    [path.split("/projects/")[-1].split("/")[0]]. *)
Definition path_project (path : string) : string :=
  Str.first (Str.split "/" (Str.last (Str.split "/projects/" path))).

(** [m.removeprefix("user:").split("@")[0]] *)
Definition username (m : string) : string :=
  Str.first (Str.split "@" (Str.removeprefix "user:" m)).

(** [owners.setdefault(project_id, []).extend(usernames)] *)
Definition setdefault_extend (project_id : string) (usernames : list string)
    (owners : gmap string (list string)) : gmap string (list string) :=
  <[project_id := default [] (owners !! project_id) ++ usernames]> owners.

Definition fetch_project_owners `{SetOrder} (api : cloud) (org_id : string) :
    M (gmap string (list string)) :=
  let response := search_all_iam_policies api ("organizations/" +:+ org_id) in
  owners <- for_paged response (λ owners policy,
    let project_id := path_project (resource policy) in
    for_in (bindings policy) (λ owners binding,
      if decide (role binding = "roles/owner") then
        let usernames :=
          username <$> filter (λ m, Str.startswith "user:" m = true) (members binding) in
        ret (setdefault_extend project_id usernames owners)
      else ret owners) owners) ∅ ;;
  ret (list_of_set <$> owners).

Definition fetch_inactive_project_numbers (api : cloud) (org_id : string) :
    M (gset string) :=
  let response := list_recommendations api
    ("organizations/" +:+ org_id +:+
     "/locations/global/recommenders/google.resourcemanager.projectUtilization.Recommender") in
  for_paged response (λ inactive rec,
    for_in (operation_groups rec) (λ inactive group,
      for_in (operations group) (λ inactive op,
        if Str.contains "/projects/" (op_resource op) then
          let project_number := path_project (op_resource op) in
          ret ({[project_number]} ∪ inactive)
        else ret inactive) inactive) inactive) ∅.

(** The cell of the owners column. *)
Definition owners_str (owners : list string) : string :=
  match owners with
  | [] => "-"
  | _ => Str.join ", " (sorted owners)
  end.

Definition headers (show_inactive : bool) : list string :=
  ["display_name"; "owners"; "create_date"; "project_id"] ++
  (if show_inactive then ["inactive"] else []).
Global Arguments headers : simpl never.

Definition print_report (projects : list loc) (show_inactive : bool) : M unit :=
  let headers := headers show_inactive in
  display_data <- for_in projects (λ display_data p,
    owners <- getitem_owners p ;;
    display_name <- getitem display_name p ;;
    create_date <- getitem create_date p ;;
    project_id <- getitem project_id p ;;
    let row : gmap string string :=
      <["project_id" := project_id]> (<["create_date" := create_date]>
        (<["owners" := owners_str owners]> (<["display_name" := display_name]> ∅))) in
    row <- (if show_inactive then
              inactive <- getitem_inactive p ;;
              ret (<["inactive" := Str.of_bool inactive]> row)
            else ret row) ;;
    ret (display_data ++ [row])) [] ;;
  col_widths <- for_in headers (λ col_widths col,
    lens <- map_m (λ row : gmap string string,
              cell <- lookup_item row col ;; ret (Str.len cell)) display_data ;;
    widest <- max_of lens ;;
    ret (<[col := Nat.max (Str.len col) widest]> col_widths)) (∅ : gmap string nat) ;;
  cells <- map_m (λ h, w <- lookup_item col_widths h ;; ret (Str.ljust h w)) headers ;;
  let header_row := Str.join "  " cells in
  print header_row ;;
  print (Str.times "-" (Str.len header_row)) ;;
  for_each display_data (λ row : gmap string string,
    cells <- map_m (λ h,
               cell <- lookup_item row h ;;
               w <- lookup_item col_widths h ;;
               ret (Str.ljust cell w)) headers ;;
    print (Str.join "  " cells)).

(** The loop of [main] that completes the project dicts. *)
Definition join_projects (projects : list loc) (owners : gmap string (list string))
    (inactive : gset string) : M unit :=
  for_each projects (λ p,
    project_id <- getitem project_id p ;;
    setitem_owners p (default [] (owners !! project_id)) ;;
    project_number <- getitem project_number p ;;
    setitem_inactive p (bool_decide (project_number ∈ inactive))).

(** [lambda p: (not p["inactive"], p["create_date"])] *)
Definition sort_key (p : loc) : M (bool * string) :=
  inactive <- getitem_inactive p ;;
  create_date <- getitem create_date p ;;
  ret (negb inactive, create_date).

(** [main], after [argparse] has read [ORG_ID] and [--show-inactive]. *)
Definition main `{SetOrder} (api : cloud) (org_id : string) (show_inactive : bool) : M unit :=
  projects <- fetch_projects api org_id ;;
  owners <- fetch_project_owners api org_id ;;
  inactive <- fetch_inactive_project_numbers api org_id ;;
  join_projects projects owners inactive ;;
  projects <- list_sort key_ltb sort_key projects ;;
  print_report projects show_inactive.

(** ** What the loops compute

    Pure descriptions of the accumulating loops and of the printed table,
    each related to the program by a lemma below. *)

Definition add_binding (project_id : string) (owners : gmap string (list string))
    (b : binding) : gmap string (list string) :=
  if decide (role b = "roles/owner") then
    setdefault_extend project_id
      (username <$> filter (λ m, Str.startswith "user:" m = true) (members b)) owners
  else owners.

Definition add_policy (owners : gmap string (list string)) (policy : iam_policy) :
    gmap string (list string) :=
  foldl (add_binding (path_project (resource policy))) owners (bindings policy).

Definition accumulate_owners (policies : list iam_policy) : gmap string (list string) :=
  foldl add_policy ∅ policies.

Definition add_operation (inactive : gset string) (op : operation) : gset string :=
  if Str.contains "/projects/" (op_resource op) then
    {[path_project (op_resource op)]} ∪ inactive
  else inactive.

Definition add_recommendation (inactive : gset string) (rec : recommendation) : gset string :=
  foldl (λ inactive group, foldl add_operation inactive (operations group))
    inactive (operation_groups rec).

Definition accumulate_inactive (recs : list recommendation) : gset string :=
  foldl add_recommendation ∅ recs.

(** The exceptions of [fetch_projects]: of an unpacking of one part into
    two names, and of [.date()] on a time that is not there. *)
Definition unpack_error : exn :=
  ValueError "not enough values to unpack (expected 2, got 1)".
Definition date_error : exn :=
  AttributeError "'NoneType' object has no attribute 'date'".

(** The dict [fetch_projects] creates for a search result, or the exception
    the result makes it raise: the two unpackings come first, the date
    after them. *)
Definition project_of_asset (r : asset) : outcome project :=
  match Str.rcut "/projects/" (asset_name r) with
  | None => Raise unpack_error
  | Some (_, project_id) =>
      match Str.rcut "/" (asset_project r) with
      | None => Raise unpack_error
      | Some (_, project_number) =>
          match asset_create_time r with
          | None => Raise date_error
          | Some create_date =>
              Ok (Project project_id project_number (asset_display_name r)
                    create_date None None)
          end
      end
  end.

(** The dicts [fetch_projects] creates for the results of a search, up to
    the first result that makes it raise, and the exception of that
    result. *)
Fixpoint parse_assets (l : list asset) : list project * option exn :=
  match l with
  | [] => ([], None)
  | r :: l' =>
      match project_of_asset r with
      | Raise e => ([], Some e)
      | Ok d => (d :: (parse_assets l').1, (parse_assets l').2)
      end
  end.

(** A project dict after [join_projects]. *)
Definition joined (owners : gmap string (list string)) (inactive : gset string)
    (d : project) : project :=
  Project (project_id d) (project_number d) (display_name d) (create_date d)
    (Some (default [] (owners !! project_id d)))
    (Some (bool_decide (project_number d ∈ inactive))).

(** Both added keys are set. *)
Definition populated (d : project) : Prop :=
  is_Some (owners d) ∧ is_Some (inactive d).

(** The sort key of a populated dict. *)
Definition key_of (d : project) : bool * string :=
  (negb (default false (inactive d)), create_date d).

(** The text of a populated dict in a column. *)
Definition cell (col : string) (d : project) : string :=
  if decide (col = "display_name") then display_name d
  else if decide (col = "owners") then owners_str (default [] (owners d))
  else if decide (col = "create_date") then create_date d
  else if decide (col = "project_id") then project_id d
  else Str.of_bool (default false (inactive d)).

Definition col_width (ds : list project) (col : string) : nat :=
  Nat.max (Str.len col) (max_list ((λ d, Str.len (cell col d)) <$> ds)).

Definition line (ds : list project) (content : string → string) (cols : list string) : string :=
  Str.join "  " ((λ h, Str.ljust (content h) (col_width ds h)) <$> cols).

(** The lines [print_report] writes for the dicts [ds], in this order. *)
Definition table (show_inactive : bool) (ds : list project) : list string :=
  let header_row := line ds id (headers show_inactive) in
  header_row :: Str.times "-" (Str.len header_row) ::
  ((λ d, line ds (λ h, cell h d) (headers show_inactive)) <$> ds).

(** The row [print_report] builds for a populated dict. *)
Definition row_of (show_inactive : bool) (d : project) : gmap string string :=
  let row : gmap string string :=
    <["project_id" := project_id d]> (<["create_date" := create_date d]>
      (<["owners" := owners_str (default [] (owners d))]>
        (<["display_name" := display_name d]> ∅))) in
  if show_inactive then <["inactive" := Str.of_bool (default false (inactive d))]> row
  else row.

(** The references [ps] point, in this order, to the dicts [ds]. *)
Definition at_locs (w : world) (ps : list loc) (ds : list project) : Prop :=
  Forall2 (λ p d, heap w !! p = Some d) ps ds.

(** What a run of [main] from the start comes to: the first exception of a
    fetch, or the dicts as joined and the table of them as sorted. *)
Definition report `{SetOrder} (api : cloud) (org_id : string) (show_inactive : bool) :
    outcome unit * world :=
  let policies := search_all_iam_policies api ("organizations/" +:+ org_id) in
  let recs := list_recommendations api
    ("organizations/" +:+ org_id +:+
     "/locations/global/recommenders/google.resourcemanager.projectUtilization.Recommender") in
  match fetch_projects api org_id start with
  | (Raise e, w) => (Raise e, w)
  | (Ok _, w) =>
      match failure policies, failure recs with
      | Some e, _ => (Raise e, w)
      | None, Some e => (Raise e, w)
      | None, None =>
          let ds := joined (list_of_set <$> accumulate_owners (items policies))
                      (accumulate_inactive (items recs)) <$> heap w in
          match ds with
          | [] => (Raise (ValueError "max() iterable argument is empty"), World [] [])
          | _ => (Ok tt, World ds (table show_inactive (sort_by key_ltb key_of ds)))
          end
      end
  end.

(** [u] is the username of a user among the members of an owner-role
    binding of a policy whose resource path belongs to [project_id]. *)
Definition owner_of (policies : list iam_policy) (project_id u : string) : Prop :=
  ∃ policy b m,
    policy ∈ policies ∧ path_project (resource policy) = project_id ∧
    b ∈ bindings policy ∧ role b = "roles/owner" ∧
    m ∈ members b ∧ Str.startswith "user:" m = true ∧ u = username m.

(** [n] is the project of an operation, of some group of some
    recommendation, whose resource path holds ["/projects/"]. *)
Definition flagged (recs : list recommendation) (n : string) : Prop :=
  ∃ rec group op,
    rec ∈ recs ∧ group ∈ operation_groups rec ∧ op ∈ operations group ∧
    Str.contains "/projects/" (op_resource op) = true ∧
    path_project (op_resource op) = n.


(** [key] is what [path] holds before its first ["/"], all of it when it
    holds none. *)
Definition before_first_slash (path key : string) : Prop :=
  ((∀ a b, path ≠ a +:+ "/" +:+ b) ∧ key = path) ∨
  (∃ rest, path = key +:+ "/" +:+ rest ∧ ∀ a b, key ≠ a +:+ "/" +:+ b).

(** A computation that writes nothing, and one that updates no dict. *)
Definition silent {A} (m : M A) : Prop := ∀ w, stdout (m w).2 = stdout w.
Definition readonly {A} (m : M A) : Prop := ∀ w, heap (m w).2 = heap w.

(** [sub] occurs nowhere in [s]. *)
Definition absent (sub s : string) : Prop := ∀ a b, s ≠ a +:+ sub +:+ b.

(** [list(set(l))] listing each element where it first occurs. *)
#[export] Instance first_seen : SetOrder.
Proof.
  refine {| list_of_set := remove_dups |}.
  - apply NoDup_remove_dups.
  - intros l x. apply elem_of_remove_dups.
Defined.

(** [list(set(l))] listing the elements the other way round. *)
Definition last_seen : SetOrder.
Proof.
  refine {| list_of_set := λ l, reverse (remove_dups l) |}.
  - intros l. rewrite reverse_Permutation. apply NoDup_remove_dups.
  - intros l x. rewrite elem_of_reverse. apply elem_of_remove_dups.
Defined.

(** The order the specification states for the dicts of the table: the
    active ones first, and by date among those of one kind. *)
Definition actives_first (ds : list project) : Prop :=
  ∀ i j a b, i < j → ds !! i = Some a → ds !! j = Some b →
    (inactive a = Some false ∧ inactive b = Some true) ∨
    (inactive a = inactive b ∧ String.le (create_date a) (create_date b)).

(** The order of the program: the inactive ones first, and by date among
    those of one kind. *)
Definition inactives_first (ds : list project) : Prop :=
  ∀ i j a b, i < j → ds !! i = Some a → ds !! j = Some b →
    (inactive a = Some true ∧ inactive b = Some false) ∨
    (inactive a = inactive b ∧ String.le (create_date a) (create_date b)).

(** ** The scenarios of the specification *)

(** Three projects: P1 (2020-01-01, owner alice, active), P2 (2021-06-15,
    no owner, inactive) and P3 (2019-03-03, owners bob and carol, active). *)
Definition three_projects : cloud := Cloud
  (λ _, Paged [Asset "//crm/projects/p1" "projects/1" "P1" (Some "2020-01-01");
               Asset "//crm/projects/p2" "projects/2" "P2" (Some "2021-06-15");
               Asset "//crm/projects/p3" "projects/3" "P3" (Some "2019-03-03")] None)
  (λ _, Paged [IamPolicy "//crm/projects/p1" [Binding "roles/owner" ["user:alice@example.com"]];
               IamPolicy "//crm/projects/p3"
                 [Binding "roles/owner" ["user:carol@example.com"; "user:bob@example.com"]]] None)
  (λ _, Paged [Recommendation [OperationGroup [Operation "//crm/projects/2"]]] None).

(** An organization without projects. *)
Definition no_projects : cloud := Cloud
  (λ _, Paged [] None) (λ _, Paged [] None) (λ _, Paged [] None).

(** One project, number 111, and a recommendation on a path with two
    ["/projects/"]. *)
Definition nested_path : cloud := Cloud
  (λ _, Paged [Asset "//crm/projects/p1" "projects/111" "P1" (Some "2020-01-01")] None)
  (λ _, Paged [] None)
  (λ _, Paged [Recommendation
                 [OperationGroup [Operation "//crm/projects/111/projects/222"]]] None).

(** A user and a service account on one owner-role binding. *)
Definition jane_binding : cloud := Cloud
  (λ _, Paged [] None)
  (λ _, Paged [IamPolicy "//crm/projects/p"
                 [Binding "roles/owner"
                    ["user:jane.doe@example.com";
                     "serviceAccount:x@proj.iam.gserviceaccount.com"]]] None)
  (λ _, Paged [] None).

(** An owner-role binding on a folder, and a recommendation on one. *)
Definition folder_policy : cloud := Cloud
  (λ _, Paged [] None)
  (λ _, Paged [IamPolicy "//crm/folders/42"
                 [Binding "roles/owner" ["user:ann@example.com"]]] None)
  (λ _, Paged [Recommendation [OperationGroup [Operation "//crm/folders/42"]]] None).

(** The policy search is refused. *)
Definition policies_refused : cloud := Cloud
  (λ _, Paged [Asset "//crm/projects/p1" "projects/1" "P1" (Some "2020-01-01")] None)
  (λ _, Paged [] (Some (ClientError "403 permission denied")))
  (λ _, Paged [] None).

(** * Proofs *)

(** ** Strings *)

Module StrFacts.
Import Str.

Lemma app_cons c a b : String c a +:+ b = String c (a +:+ b).
Proof. reflexivity. Qed.

Lemma app_nil_l a : "" +:+ a = a.
Proof. reflexivity. Qed.

Lemma app_nil_r a : a +:+ "" = a.
Proof. induction a as [|c a IH]; [done|]. by rewrite app_cons, IH. Qed.

Lemma app_assoc a b c : (a +:+ b) +:+ c = a +:+ b +:+ c.
Proof. induction a as [|x a IH]; [done|]. by rewrite !app_cons, IH. Qed.

Lemma size_cons c s : size (String c s) = S (size s).
Proof. reflexivity. Qed.

Lemma size_app a b : size (a +:+ b) = size a + size b.
Proof. induction a as [|c a IH]; [done|]. by rewrite app_cons, !size_cons, IH. Qed.

Lemma len_nil : len "" = 0.
Proof. reflexivity. Qed.

Lemma len_cons c s : len (String c s) = (if starts_char c then 1 else 0) + len s.
Proof. reflexivity. Qed.

(** [len] counts the characters of both parts of a concatenation. *)
Lemma len_app a b : len (a +:+ b) = len a + len b.
Proof. induction a as [|c a IH]; [done|]. rewrite app_cons, !len_cons, IH. lia. Qed.

(** No text has more characters than bytes. *)
Lemma len_le_size s : len s ≤ size s.
Proof.
  induction s as [|c s IH]; [done|]. rewrite len_cons, size_cons.
  destruct (starts_char c); lia.
Qed.

(** [c * n] has [n] characters when [c] is a character of its own. *)
Lemma len_times c n : starts_char c = true → len (times c n) = n.
Proof.
  intros Hc. induction n as [|n IH]; [done|]. simpl. by rewrite len_cons, Hc, IH.
Qed.

Lemma len_ljust s w : len (ljust s w) = Nat.max (len s) w.
Proof. unfold ljust. rewrite len_app, len_times by done. lia. Qed.

(** A cell padded to a width it does not exceed is exactly that wide. *)
Lemma len_ljust_le s w : len s ≤ w → len (ljust s w) = w.
Proof. rewrite len_ljust. lia. Qed.

Lemma strip_prefix_Some p s r : strip_prefix p s = Some r ↔ s = p +:+ r.
Proof.
  revert s. induction p as [|a p IH]; intros s; simpl.
  - rewrite app_nil_l. split; [by intros [= ->]|by intros ->].
  - rewrite app_cons. destruct s as [|b s]; [done|].
    case_decide as Hab.
    + subst b. rewrite IH. split; [by intros ->|by intros [= ->]].
    + split; [done|]. intros [= -> _]. done.
Qed.

Lemma strip_prefix_app p r : strip_prefix p (p +:+ r) = Some r.
Proof. by apply strip_prefix_Some. Qed.

Lemma startswith_true p s : startswith p s = true ↔ ∃ r, s = p +:+ r.
Proof.
  unfold startswith. rewrite bool_decide_eq_true. unfold is_Some.
  by setoid_rewrite strip_prefix_Some.
Qed.

Lemma removeprefix_app p r : removeprefix p (p +:+ r) = r.
Proof. unfold removeprefix. by rewrite strip_prefix_app. Qed.

Lemma cut_unfold sep s :
  cut sep s =
    match strip_prefix sep s with
    | Some rest => Some ("", rest)
    | None =>
        match s with
        | "" => None
        | String c s' => prod_map (String c) id <$> cut sep s'
        end
    end.
Proof. by destruct s. Qed.

(** [cut] splits around an occurrence of the separator... *)
Lemma cut_Some sep s a b : cut sep s = Some (a, b) → s = a +:+ sep +:+ b.
Proof.
  revert a. induction s as [|c s IH]; intros a; rewrite cut_unfold.
  - destruct (strip_prefix sep "") as [r|] eqn:Hp; [|done].
    intros [= <- <-]. by apply strip_prefix_Some in Hp.
  - destruct (strip_prefix sep (String c s)) as [r|] eqn:Hp.
    + intros [= <- <-]. by apply strip_prefix_Some in Hp.
    + destruct (cut sep s) as [[a' b']|]; [|done].
      intros [= <- <-]. rewrite app_cons. f_equal. by apply IH.
Qed.

(** ...the leftmost one... *)
Lemma cut_leftmost sep s a b a' b' :
  cut sep s = Some (a, b) → s = a' +:+ sep +:+ b' → size a ≤ size a'.
Proof.
  revert a a'. induction s as [|c s IH]; intros a a'; rewrite cut_unfold.
  - destruct (strip_prefix sep "") as [r|]; [|done].
    intros [= <- <-] _. unfold size; simpl; lia.
  - destruct (strip_prefix sep (String c s)) as [r|] eqn:Hp.
    { intros [= <- <-] _. unfold size; simpl; lia. }
    destruct (cut sep s) as [[a0 b0]|] eqn:Hc; [|done].
    intros [= <- <-] Hs. destruct a' as [|c' a'].
    + rewrite app_nil_l in Hs. rewrite Hs, strip_prefix_app in Hp. done.
    + rewrite app_cons in Hs. injection Hs as -> Hs.
      rewrite !size_cons. apply le_n_S. by eapply IH.
Qed.

(** ...and finds one whenever there is one. *)
Lemma cut_None sep s : cut sep s = None ↔ absent sep s.
Proof.
  split.
  - intros Hc a b ->. revert Hc. induction a as [|c a IH]; rewrite cut_unfold.
    + by rewrite app_nil_l, strip_prefix_app.
    + rewrite app_cons. destruct (strip_prefix sep _); [done|].
      destruct (cut sep (a +:+ sep +:+ b)); [done|]. auto.
  - intros Habs. destruct (cut sep s) as [[a b]|] eqn:Hc; [|done].
    apply cut_Some in Hc. by destruct (Habs a b).
Qed.

Lemma contains_true sub s : contains sub s = true ↔ ∃ a b, s = a +:+ sub +:+ b.
Proof.
  unfold contains. rewrite bool_decide_eq_true. split.
  - intros [[a b] Hc]. exists a, b. by apply cut_Some.
  - intros (a & b & ->). destruct (cut sub (a +:+ sub +:+ b)) eqn:Hc; [done|].
    apply cut_None in Hc. by destruct (Hc a b).
Qed.

Lemma contains_false sub s : contains sub s = false ↔ absent sub s.
Proof.
  rewrite <-cut_None. unfold contains. rewrite bool_decide_eq_false.
  rewrite <-eq_None_not_Some. done.
Qed.

Lemma cut_size sep s a b : cut sep s = Some (a, b) → size s = size a + size sep + size b.
Proof. intros ->%cut_Some. rewrite !size_app. lia. Qed.

(** Nothing is cut off the empty string by a non-empty separator. *)
Lemma cut_empty sep : sep ≠ "" → cut sep "" = None.
Proof. by destruct sep. Qed.

Lemma size_pos s : s ≠ "" → 0 < size s.
Proof. destruct s; [done|]. rewrite size_cons. lia. Qed.

Lemma size_0 s : size s = 0 → s = "".
Proof. by destruct s. Qed.

(** More rounds than the string has characters change nothing. *)
Lemma split_rounds_enough sep n s :
  sep ≠ "" → size s ≤ n → split_rounds n sep s = split sep s.
Proof.
  intros Hsep. unfold split. revert s.
  induction (lt_wf n) as [n _ IH]. intros s Hn.
  destruct n as [|n].
  { assert (size s = 0) as -> by lia. done. }
  destruct (size s) as [|m] eqn:Hm; simpl.
  { apply size_0 in Hm as ->. by rewrite cut_empty. }
  destruct (cut sep s) as [[a b]|] eqn:Hc; [|done].
  pose proof (cut_size _ _ _ _ Hc). pose proof (size_pos _ Hsep).
  f_equal. rewrite (IH n), (IH m); [done|lia..].
Qed.

(** The equation [split] obeys: cut once and split what follows. *)
Lemma split_unfold sep s :
  sep ≠ "" →
  split sep s =
    match cut sep s with
    | None => [s]
    | Some (a, b) => a :: split sep b
    end.
Proof.
  intros Hsep. rewrite <-(split_rounds_enough sep (S (size s))) by (done || lia).
  simpl. destruct (cut sep s) as [[a b]|] eqn:Hc; [|done].
  f_equal. apply split_rounds_enough; [done|].
  pose proof (cut_size _ _ _ _ Hc). lia.
Qed.

Lemma split_absent sep s : sep ≠ "" → absent sep s → split sep s = [s].
Proof. intros Hsep Habs%cut_None. by rewrite split_unfold, Habs. Qed.


(** [s.split(sep)[0]]: what precedes the leftmost separator. *)
Lemma first_split sep s :
  sep ≠ "" →
  first (split sep s) = match cut sep s with Some (a, _) => a | None => s end.
Proof. intros Hsep. rewrite split_unfold by done. by destruct (cut sep s) as [[]|]. Qed.


(** The piece in front of a one-character separator does not hold it. *)
Lemma cut_char_before (c : ascii) s a b :
  cut (String c "") s = Some (a, b) → absent (String c "") a.
Proof.
  intros Hc x y ->.
  pose proof (cut_leftmost _ _ _ _ x (y +:+ String c "" +:+ b) Hc) as Hle.
  apply cut_Some in Hc. rewrite Hc, !app_assoc in Hle.
  specialize (Hle eq_refl). rewrite !size_app, size_cons in Hle. lia.
Qed.

End StrFacts.

(** [split] and [rsplit] on paths, also where separators overlap. *)

Example split_projects :
  Str.split "/projects/" "//crm.googleapis.com/projects/my-proj/x" =
  ["//crm.googleapis.com"; "my-proj/x"].
Proof. reflexivity. Qed.

Example split_overlap :
  Str.split "/projects/" "/projects/projects/" = [""; "projects/"].
Proof. reflexivity. Qed.

Example split_empty : Str.split "/" "" = [""].
Proof. reflexivity. Qed.

Example split_slashes : Str.split "/" "//a/b/" = [""; ""; "a"; "b"; ""].
Proof. reflexivity. Qed.

Example rsplit1_projects :
  Str.rsplit1 "/projects/" "//crm/projects/a/projects/b" = ["//crm/projects/a"; "b"].
Proof. reflexivity. Qed.

Example rsplit1_overlap :
  Str.rsplit1 "/projects/" "/projects/projects/" = ["/projects"; ""].
Proof. reflexivity. Qed.

Example rsplit1_absent : Str.rsplit1 "/projects/" "folders/1" = ["folders/1"].
Proof. reflexivity. Qed.

Example ljust_pads : Str.ljust "ab" 5 = "ab   " ∧ Str.ljust "abcdef" 3 = "abcdef".
Proof. split; reflexivity. Qed.

Example join_commas : Str.join ", " ["a"; "b"; "c"] = "a, b, c".
Proof. reflexivity. Qed.

(** [len] and [ljust] count characters, whatever bytes encode them. *)

Example len_chars :
  Str.len "Zürich" = 6 ∧ Str.size "Zürich" = 7 ∧
  Str.len "東京" = 2 ∧ Str.size "東京" = 6.
Proof. by vm_compute. Qed.

Example ljust_chars :
  Str.ljust "Zürich" 8 = "Zürich  " ∧ Str.ljust "東京" 12 = "東京          ".
Proof. by vm_compute. Qed.

(** ** Sorting *)

Section sort_facts.
Context {A K : Type} (lt : K → K → bool) (key : A → K).

Lemma insert_by_Permutation x l : insert_by lt key x l ≡ₚ x :: l.
Proof.
  induction l as [|y l IH]; simpl; [done|].
  destruct (lt (key y) (key x)); [|done].
  rewrite IH. apply Permutation_swap.
Qed.

Lemma sort_by_Permutation l : sort_by lt key l ≡ₚ l.
Proof.
  induction l as [|x l IH]; simpl; [done|].
  by rewrite insert_by_Permutation, IH.
Qed.

Lemma sort_by_cons x l :
  sort_by lt key (x :: l) = insert_by lt key x (sort_by lt key l).
Proof. reflexivity. Qed.

Lemma sort_by_length l : length (sort_by lt key l) = length l.
Proof. by rewrite sort_by_Permutation. Qed.

(** [x] comes no later than [y] when the key of [y] is not smaller. *)
Local Abbreviation before := (λ x y, lt (key y) (key x) = false).

Hypothesis lt_asym : ∀ a b, lt a b = true → lt b a = false.
Hypothesis le_trans : ∀ a b c, lt b a = false → lt c b = false → lt c a = false.

Lemma insert_by_sorted x l :
  StronglySorted before l → StronglySorted before (insert_by lt key x l).
Proof.
  induction 1 as [|y l Hl IH Hy]; simpl.
  { repeat constructor. }
  destruct (lt (key y) (key x)) eqn:Hyx.
  - constructor; [done|]. rewrite insert_by_Permutation.
    constructor; [by apply lt_asym|done].
  - constructor; [by constructor|].
    constructor; [done|]. eapply Forall_impl; [exact Hy|].
    intros z Hz. simpl in *. by eapply le_trans.
Qed.

Lemma sort_by_sorted l : StronglySorted before (sort_by lt key l).
Proof.
  induction l as [|x l IH]; simpl; [constructor|]. by apply insert_by_sorted.
Qed.

(** In a sorted list an earlier element is never after a later one. *)
Lemma sort_by_ordered l i j x y :
  i < j → sort_by lt key l !! i = Some x → sort_by lt key l !! j = Some y →
  lt (key y) (key x) = false.
Proof.
  intros Hij Hx Hy. pose proof (sort_by_sorted l) as Hs.
  revert i j Hij Hx Hy. induction Hs as [|z l' Hl IH Hz]; intros i j Hij Hx Hy.
  { done. }
  destruct i as [|i], j as [|j]; try lia; simplify_eq/=.
  - rewrite Forall_forall in Hz. apply Hz. by eapply list_elem_of_lookup_2.
  - eapply (IH i j); [lia|done..].
Qed.

End sort_facts.

(** Sorting two lists whose elements correspond and have the same keys
    gives lists whose elements correspond. *)
Lemma sort_by_Forall2 {A B K} (lt : K → K → bool) (key1 : A → K) (key2 : B → K)
    (R : A → B → Prop) l1 l2 :
  (∀ x y, R x y → key1 x = key2 y) →
  Forall2 R l1 l2 → Forall2 R (sort_by lt key1 l1) (sort_by lt key2 l2).
Proof.
  intros Hkey. induction 1 as [|x y l1 l2 Hxy Hl IH]; simpl; [constructor|].
  assert (∀ k1 k2, Forall2 R k1 k2 →
    Forall2 R (insert_by lt key1 x k1) (insert_by lt key2 y k2)) as Hins.
  { induction 1 as [|x' y' k1 k2 Hxy' Hk IHk]; simpl; [by repeat constructor|].
    rewrite (Hkey _ _ Hxy), (Hkey _ _ Hxy').
    destruct (lt (key2 y') (key2 y)); by repeat constructor. }
  by apply Hins.
Qed.

Lemma sort_by_fmap {A B K} (lt : K → K → bool) (key : B → K) (f : A → B) l :
  sort_by lt key (f <$> l) = f <$> sort_by lt (key ∘ f) l.
Proof.
  induction l as [|x l IH]; [done|].
  rewrite fmap_cons, !sort_by_cons, IH.
  generalize (sort_by lt (key ∘ f) l). intros k.
  induction k as [|y k IHk]; [done|].
  rewrite fmap_cons. simpl.
  destruct (lt (key (f y)) (key (f x))); [|done].
  rewrite fmap_cons. f_equal. apply IHk.
Qed.

Lemma sort_by_ext {A K} (lt : K → K → bool) (key1 key2 : A → K) l :
  (∀ x, key1 x = key2 x) → sort_by lt key1 l = sort_by lt key2 l.
Proof.
  intros Hk. induction l as [|x l IH]; [done|]. rewrite !sort_by_cons, IH.
  generalize (sort_by lt key2 l). intros k.
  induction k as [|y k IHk]; simpl; [done|].
  by rewrite !Hk, IHk.
Qed.

(** The sort is stable: the elements of one key keep their order. *)
Lemma sort_by_stable {A K} `{EqDecision K} (lt : K → K → bool) (key : A → K) k l :
  (∀ a, lt a a = false) →
  filter (λ x, key x = k) (sort_by lt key l) = filter (λ x, key x = k) l.
Proof.
  intros Hirr. induction l as [|x l IH]; [done|].
  rewrite sort_by_cons, filter_cons, <-IH. clear IH.
  generalize (sort_by lt key l). intros s.
  induction s as [|y s IHs]; simpl.
  { by rewrite filter_cons. }
  destruct (lt (key y) (key x)) eqn:Hlt.
  - rewrite !(filter_cons _ y), IHs.
    destruct (decide (key y = k)) as [Hy|Hy]; [|done].
    destruct (decide (key x = k)) as [Hx|Hx]; [|done].
    rewrite Hy, Hx, Hirr in Hlt. done.
  - by rewrite filter_cons.
Qed.

(** The order of strings. *)

Lemma ltb_false_le a b : Str.ltb b a = false ↔ String.le a b.
Proof.
  unfold Str.ltb, String.ltb, String.le, String.leb.
  rewrite (String.compare_antisym a b).
  destruct (String.compare b a); simpl; split; done.
Qed.

Lemma ltb_asym a b : Str.ltb a b = true → Str.ltb b a = false.
Proof.
  unfold Str.ltb, String.ltb. rewrite (String.compare_antisym a b).
  by destruct (String.compare b a).
Qed.

Lemma ltb_le_trans a b c :
  Str.ltb b a = false → Str.ltb c b = false → Str.ltb c a = false.
Proof. rewrite !ltb_false_le. apply transitivity. Qed.

Lemma ltb_irrefl a : Str.ltb a a = false.
Proof. by apply ltb_false_le. Qed.

Lemma sorted_Permutation l : sorted l ≡ₚ l.
Proof. apply sort_by_Permutation. Qed.

Lemma sorted_Sorted l : StronglySorted String.le (sorted l).
Proof.
  pose proof (sort_by_sorted Str.ltb id ltb_asym ltb_le_trans l) as Hs.
  unfold sorted. induction Hs as [|x k Hk IH Hx]; constructor; [done|].
  eapply Forall_impl; [exact Hx|]. intros y. simpl. apply ltb_false_le.
Qed.

(** [sorted] forgets the order of its argument. *)
Lemma sorted_unique l1 l2 : l1 ≡ₚ l2 → sorted l1 = sorted l2.
Proof.
  intros Hl. apply (StronglySorted_unique String.le); [apply sorted_Sorted..|].
  by rewrite !sorted_Permutation.
Qed.

(** The order of the sort keys of [main]. *)

Lemma key_ltb_asym k1 k2 : key_ltb k1 k2 = true → key_ltb k2 k1 = false.
Proof.
  destruct k1 as [[] s1], k2 as [[] s2]; unfold key_ltb; simpl; try done;
    apply ltb_asym.
Qed.

Lemma key_ltb_le_trans k1 k2 k3 :
  key_ltb k2 k1 = false → key_ltb k3 k2 = false → key_ltb k3 k1 = false.
Proof.
  destruct k1 as [[] s1], k2 as [[] s2], k3 as [[] s3]; unfold key_ltb; simpl;
    try done; apply ltb_le_trans.
Qed.

(** What "not after" means on the keys of two populated dicts: the inactive
    one first, and by date among dicts that are both active or both
    inactive. *)
Lemma key_ltb_false (a b : project) ia ib :
  inactive a = Some ia → inactive b = Some ib →
  key_ltb (key_of b) (key_of a) = false ↔
    (ia = true ∧ ib = false) ∨ (ia = ib ∧ String.le (create_date a) (create_date b)).
Proof.
  intros Ha Hb. unfold key_ltb, key_of. rewrite Ha, Hb. simpl.
  destruct ia, ib; simpl; rewrite ?ltb_false_le; intuition (discriminate || auto).
Qed.

(** ** Running computations *)

Lemma bind_ok {A B} (m : M A) (k : A → M B) w a w' :
  m w = (Ok a, w') → bind m k w = k a w'.
Proof. unfold bind. by intros ->. Qed.

Lemma bind_raise {A B} (m : M A) (k : A → M B) w e w' :
  m w = (Raise e, w') → bind m k w = (Raise e, w').
Proof. unfold bind. by intros ->. Qed.

(** A loop whose body computes a value and touches nothing is a fold. *)
Lemma for_in_pure {A S} (f : S → A → S) (body : S → A → M S) l acc w :
  (∀ acc x w, body acc x w = (Ok (f acc x), w)) →
  for_in l body acc w = (Ok (foldl f acc l), w).
Proof.
  intros Hbody. revert acc. induction l as [|x l IH]; intros acc; simpl; [done|].
  erewrite bind_ok by apply Hbody. apply IH.
Qed.

Lemma map_m_pure {A B} (g : A → B) (f : A → M B) l w :
  (∀ x, x ∈ l → f x w = (Ok (g x), w)) →
  map_m f l w = (Ok (g <$> l), w).
Proof.
  induction l as [|x l IH]; intros Hf; simpl; [done|].
  erewrite bind_ok by (apply Hf; left).
  erewrite bind_ok by (apply IH; intros; apply Hf; by right). done.
Qed.

Lemma for_paged_pure {A S} (f : S → A → S) (body : S → A → M S) response acc w :
  (∀ acc x w, body acc x w = (Ok (f acc x), w)) →
  for_paged response body acc w =
    (match failure response with
     | Some e => Raise e
     | None => Ok (foldl f acc (items response))
     end, w).
Proof.
  intros Hbody. unfold for_paged.
  erewrite bind_ok by by apply for_in_pure.
  by destruct (failure response).
Qed.

(** *** Computations that write nothing, computations that update no dict *)

Lemma silent_ret {A} (a : A) : silent (ret a).
Proof. done. Qed.

Lemma silent_raise {A} e : silent (@raise A e).
Proof. done. Qed.

Lemma silent_bind {A B} (m : M A) (k : A → M B) :
  silent m → (∀ a, silent (k a)) → silent (bind m k).
Proof.
  intros Hm Hk w. unfold bind. specialize (Hm w).
  destruct (m w) as [[a|e] w']; simpl in *; [|done]. by rewrite Hk.
Qed.

Lemma silent_for_in {A B} (l : list B) (body : A → B → M A) acc :
  (∀ acc x, silent (body acc x)) → silent (for_in l body acc).
Proof.
  intros Hbody. revert acc. induction l as [|x l IH]; intros acc; simpl.
  - apply silent_ret.
  - by apply silent_bind.
Qed.

Lemma silent_for_paged {A B} (r : paged B) (body : A → B → M A) acc :
  (∀ acc x, silent (body acc x)) → silent (for_paged r body acc).
Proof.
  intros Hbody. apply silent_bind; [by apply silent_for_in|].
  intros a. by destruct (failure r).
Qed.

Lemma silent_map_m {A B} (f : A → M B) l : (∀ x, silent (f x)) → silent (map_m f l).
Proof.
  intros Hf. induction l as [|x l IH]; simpl; [done|].
  apply silent_bind; [done|]. intros y. by apply silent_bind.
Qed.

Lemma readonly_ret {A} (a : A) : readonly (ret a).
Proof. done. Qed.

Lemma readonly_raise {A} e : readonly (@raise A e).
Proof. done. Qed.

Lemma readonly_bind {A B} (m : M A) (k : A → M B) :
  readonly m → (∀ a, readonly (k a)) → readonly (bind m k).
Proof.
  intros Hm Hk w. unfold bind. specialize (Hm w).
  destruct (m w) as [[a|e] w']; simpl in *; [|done]. by rewrite Hk.
Qed.

Lemma readonly_for_in {A B} (l : list B) (body : A → B → M A) acc :
  (∀ acc x, readonly (body acc x)) → readonly (for_in l body acc).
Proof.
  intros Hbody. revert acc. induction l as [|x l IH]; intros acc; simpl.
  - apply readonly_ret.
  - by apply readonly_bind.
Qed.

Lemma readonly_for_paged {A B} (r : paged B) (body : A → B → M A) acc :
  (∀ acc x, readonly (body acc x)) → readonly (for_paged r body acc).
Proof.
  intros Hbody. apply readonly_bind; [by apply readonly_for_in|].
  intros a. by destruct (failure r).
Qed.

Lemma readonly_map_m {A B} (f : A → M B) l : (∀ x, readonly (f x)) → readonly (map_m f l).
Proof.
  intros Hf. induction l as [|x l IH]; simpl; [done|].
  apply readonly_bind; [done|]. intros y. by apply readonly_bind.
Qed.


Lemma silent_for_each {A} (l : list A) (body : A → M unit) :
  (∀ x, silent (body x)) → silent (for_each l body).
Proof.
  intros Hbody. induction l as [|x l IH]; simpl; [done|]. by apply silent_bind.
Qed.

Lemma readonly_for_each {A} (l : list A) (body : A → M unit) :
  (∀ x, readonly (body x)) → readonly (for_each l body).
Proof.
  intros Hbody. induction l as [|x l IH]; simpl; [done|]. by apply readonly_bind.
Qed.

Lemma silent_alloc d : silent (alloc d).
Proof. done. Qed.

Lemma silent_load p : silent (load p).
Proof. intros w. unfold load. by destruct (heap w !! p). Qed.

Lemma readonly_load p : readonly (load p).
Proof. intros w. unfold load. by destruct (heap w !! p). Qed.

Lemma silent_store p d : silent (store p d).
Proof. done. Qed.

Lemma readonly_print s : readonly (print s).
Proof. done. Qed.

Lemma silent_unpack2 l : silent (unpack2 l).
Proof. by destruct l as [|? [|? [|? ?]]]. Qed.

Lemma silent_date_str t : silent (date_str t).
Proof. by destruct t. Qed.

Lemma readonly_max_of l : readonly (max_of l).
Proof. by destruct l. Qed.

Lemma readonly_lookup_item {V} (d : gmap string V) k : readonly (lookup_item d k).
Proof. unfold lookup_item. by destruct (d !! k). Qed.

Create HintDb frame.

#[global] Hint Resolve silent_ret silent_raise silent_bind silent_for_in
  silent_for_paged silent_map_m silent_for_each silent_alloc silent_load
  silent_store silent_unpack2 silent_date_str : frame.
#[global] Hint Resolve readonly_ret readonly_raise readonly_bind readonly_for_in
  readonly_for_paged readonly_map_m readonly_for_each readonly_load
  readonly_print readonly_max_of readonly_lookup_item : frame.

(** Decide a frame goal by the shape of the computation. *)
Ltac frame :=
  repeat first
    [ progress intros
    | solve [auto with frame]
    | apply silent_bind | apply silent_for_in | apply silent_for_paged
    | apply silent_map_m | apply silent_for_each
    | apply readonly_bind | apply readonly_for_in | apply readonly_for_paged
    | apply readonly_map_m | apply readonly_for_each
    | match goal with
      | |- silent (match ?x with _ => _ end) => destruct x
      | |- readonly (match ?x with _ => _ end) => destruct x
      | |- silent (if ?b then _ else _) => destruct b
      | |- readonly (if ?b then _ else _) => destruct b
      end ].

Lemma silent_getitem f p : silent (getitem f p).
Proof. unfold getitem. frame. Qed.

Lemma readonly_getitem f p : readonly (getitem f p).
Proof. unfold getitem. frame. Qed.

Lemma silent_getitem_inactive p : silent (getitem_inactive p).
Proof. unfold getitem_inactive. frame. Qed.

Lemma readonly_getitem_inactive p : readonly (getitem_inactive p).
Proof. unfold getitem_inactive. frame. Qed.

Lemma readonly_getitem_owners p : readonly (getitem_owners p).
Proof. unfold getitem_owners. frame. Qed.

#[global] Hint Resolve silent_getitem readonly_getitem silent_getitem_inactive
  readonly_getitem_inactive readonly_getitem_owners : frame.

Lemma silent_fetch_projects api org_id : silent (fetch_projects api org_id).
Proof. unfold fetch_projects. frame. Qed.

Lemma silent_fetch_project_owners `{SetOrder} api org_id :
  silent (fetch_project_owners api org_id).
Proof. unfold fetch_project_owners. frame. Qed.

Lemma silent_fetch_inactive_project_numbers api org_id :
  silent (fetch_inactive_project_numbers api org_id).
Proof. unfold fetch_inactive_project_numbers. frame. Qed.

Lemma silent_join_projects projects owners inactive :
  silent (join_projects projects owners inactive).
Proof. unfold join_projects, setitem_owners, setitem_inactive. frame. Qed.

Lemma silent_list_sort projects : silent (list_sort key_ltb sort_key projects).
Proof. unfold list_sort, sort_key. frame. Qed.

Lemma readonly_list_sort projects : readonly (list_sort key_ltb sort_key projects).
Proof. unfold list_sort, sort_key. frame. Qed.

(** [print_report] reads the dicts and never updates one, whatever it is
    given and however it ends. *)
Lemma readonly_print_report projects show_inactive :
  readonly (print_report projects show_inactive).
Proof. unfold print_report. frame. Qed.

(** *** The fetches *)

Lemma fetch_project_owners_run `{SetOrder} api org_id w :
  fetch_project_owners api org_id w =
    (match failure (search_all_iam_policies api ("organizations/" +:+ org_id)) with
     | Some e => Raise e
     | None =>
         Ok (list_of_set <$>
               accumulate_owners
                 (items (search_all_iam_policies api ("organizations/" +:+ org_id))))
     end, w).
Proof.
  unfold fetch_project_owners, bind.
  rewrite (for_paged_pure add_policy).
  - by destruct (failure _).
  - intros acc policy w'. apply for_in_pure.
    intros acc' b w''. unfold add_binding. by case_decide.
Qed.

Lemma fetch_inactive_project_numbers_run api org_id w :
  let response := list_recommendations api
    ("organizations/" +:+ org_id +:+
     "/locations/global/recommenders/google.resourcemanager.projectUtilization.Recommender") in
  fetch_inactive_project_numbers api org_id w =
    (match failure response with
     | Some e => Raise e
     | None => Ok (accumulate_inactive (items response))
     end, w).
Proof.
  intros response. unfold fetch_inactive_project_numbers.
  apply (for_paged_pure add_recommendation).
  intros acc rec w'. apply for_in_pure.
  intros acc' group w''. apply for_in_pure.
  intros acc'' op w'''. unfold add_operation. by destruct (Str.contains _ _).
Qed.

Lemma unpack2_run l w :
  (∃ ab, unpack2 l w = (Ok ab, w)) ∨ (∃ e, unpack2 l w = (Raise e, w)).
Proof. destruct l as [|a [|b [|c l]]]; simpl; eauto. Qed.

(** [fetch_projects] returns references to the dicts it has created, in the
    order of creation, whatever else it finds in the heap. *)
Lemma fetch_projects_run api org_id w :
  ∃ ds, (fetch_projects api org_id w).2 = World (heap w ++ ds) (stdout w) ∧
        ∀ ps, (fetch_projects api org_id w).1 = Ok ps →
              ps = seq (length (heap w)) (length ds).
Proof.
  unfold fetch_projects, for_paged.
  generalize (search_all_resources api ("organizations/" +:+ org_id)).
  intros response.
  set (body := λ (projects : list loc) (r : asset), _).
  assert (∀ l acc w, ∃ ds,
    (for_in l body acc w).2 = World (heap w ++ ds) (stdout w) ∧
    ∀ ps, (for_in l body acc w).1 = Ok ps →
          ps = acc ++ seq (length (heap w)) (length ds)) as Hloop.
  { clear w.
    assert (∀ acc r w,
      (∃ d, body acc r w =
              (Ok (acc ++ [length (heap w)]), World (heap w ++ [d]) (stdout w))) ∨
      (∃ e, body acc r w = (Raise e, w))) as Hbody.
    { intros acc r w. unfold body.
      destruct (unpack2_run (Str.rsplit1 "/projects/" (asset_name r)) w)
        as [[parts1 H1]|[e H1]]; [|right; exists e; by apply bind_raise].
      rewrite (bind_ok _ _ _ _ _ H1).
      destruct (unpack2_run (Str.rsplit1 "/" (asset_project r)) w)
        as [[parts2 H2]|[e H2]]; [|right; exists e; by apply bind_raise].
      rewrite (bind_ok _ _ _ _ _ H2).
      destruct (asset_create_time r) as [date|]; [left; by eexists|right; by eexists]. }
    induction l as [|r l IH]; intros acc w; simpl.
    { exists []. rewrite !app_nil_r. destruct w. split; [done|]. by intros ? [= <-]. }
    destruct (Hbody acc r w) as [[d Hd]|[e He]].
    - rewrite (bind_ok _ _ _ _ _ Hd).
      destruct (IH (acc ++ [length (heap w)]) (World (heap w ++ [d]) (stdout w)))
        as (ds & Hw & Hps).
      exists (d :: ds). simpl in *. split.
      + rewrite Hw. by rewrite <-app_assoc.
      + intros ps Hok. rewrite (Hps ps Hok).
        rewrite length_app, <-app_assoc. simpl. by rewrite Nat.add_1_r.
    - rewrite (bind_raise _ _ _ _ _ He). exists []. simpl. rewrite app_nil_r.
      destruct w. split; [done|]. by intros ? [=]. }
  destruct (Hloop (items response) [] w) as (ds & Hw & Hps).
  exists ds. unfold bind.
  destruct (for_in (items response) body [] w) as [[ps|e] w'] eqn:Hrun;
    simpl in *; subst w'.
  - by destruct (failure response).
  - done.
Qed.

Lemma rcut_is_Some sep s :
  Str.contains sep s = true → is_Some (Str.rcut sep s).
Proof.
  intros (a & b & ->)%StrFacts.contains_true.
  induction a as [|c a IH].
  - rewrite StrFacts.app_nil_l.
    destruct (sep +:+ b) as [|c s] eqn:Hs; simpl.
    + rewrite <-Hs, StrFacts.strip_prefix_app. by eexists.
    + destruct (Str.rcut sep s) as [[]|]; [by eexists|].
      rewrite <-Hs, StrFacts.strip_prefix_app. by eexists.
  - rewrite StrFacts.app_cons. simpl. destruct IH as [[a' b'] ->]. by eexists.
Qed.

(** [fetch_projects] returns when the search does and each name holds
    ["/projects/"], each parent reference a ["/"] and each result its
    time. *)
Lemma fetch_projects_ok api org_id w :
  let response := search_all_resources api ("organizations/" +:+ org_id) in
  failure response = None →
  Forall (λ r, Str.contains "/projects/" (asset_name r) = true ∧
               Str.contains "/" (asset_project r) = true ∧
               is_Some (asset_create_time r)) (items response) →
  ∃ ps ds, fetch_projects api org_id w = (Ok ps, World (heap w ++ ds) (stdout w)) ∧
           length ds = length (items response).
Proof.
  intros response Hfail Hitems. unfold fetch_projects, for_paged. fold response.
  rewrite Hfail. clear Hfail.
  set (body := λ (projects : list loc) (r : asset), _).
  assert (∀ acc w, ∃ ps ds,
    for_in (items response) body acc w = (Ok ps, World (heap w ++ ds) (stdout w)) ∧
    length ds = length (items response)) as Hloop.
  { clear w.
    induction Hitems as [|r l (Hname & Hproject & [date Hdate]) _ IH];
      intros acc w; simpl.
    { exists acc, []. rewrite app_nil_r. by destruct w. }
    destruct (rcut_is_Some _ _ Hname) as [[a1 b1] H1].
    destruct (rcut_is_Some _ _ Hproject) as [[a2 b2] H2].
    erewrite bind_ok; cycle 1.
    { unfold body, Str.rsplit1. rewrite H1, H2, Hdate.
      do 4 (erewrite bind_ok by reflexivity). reflexivity. }
    edestruct IH as (ps & ds & -> & Hlen). simpl.
    eexists ps, (_ :: ds). rewrite <-app_assoc. split; [done|]. simpl. by rewrite Hlen. }
  destruct (Hloop [] w) as (ps & ds & Hrun & Hlen).
  exists ps, ds. by rewrite (bind_ok _ _ _ _ _ Hrun).
Qed.

(** *** The join, the sort and the table *)

Lemma load_at pre d ds out :
  load (length pre) (World (pre ++ d :: ds) out) = (Ok d, World (pre ++ d :: ds) out).
Proof. unfold load. simpl. by rewrite list_lookup_middle. Qed.

Lemma store_at pre d d' ds out :
  store (length pre) d' (World (pre ++ d :: ds) out) =
    (Ok tt, World (pre ++ d' :: ds) out).
Proof.
  unfold store. simpl. do 2 f_equal.
  rewrite <-(Nat.add_0_r (length pre)). by rewrite insert_app_r.
Qed.

Lemma getitem_at f pre d ds out :
  getitem f (length pre) (World (pre ++ d :: ds) out) =
    (Ok (f d), World (pre ++ d :: ds) out).
Proof. unfold getitem. by erewrite bind_ok by apply load_at. Qed.

Lemma setitem_owners_at v pre d ds out :
  setitem_owners (length pre) v (World (pre ++ d :: ds) out) =
    (Ok tt, World (pre ++ Project (project_id d) (project_number d) (display_name d)
                            (create_date d) (Some v) (inactive d) :: ds) out).
Proof.
  unfold setitem_owners. erewrite bind_ok by apply load_at. apply store_at.
Qed.

Lemma setitem_inactive_at v pre d ds out :
  setitem_inactive (length pre) v (World (pre ++ d :: ds) out) =
    (Ok tt, World (pre ++ Project (project_id d) (project_number d) (display_name d)
                            (create_date d) (owners d) (Some v) :: ds) out).
Proof.
  unfold setitem_inactive. erewrite bind_ok by apply load_at. apply store_at.
Qed.

(** The loop of [main] completes every dict it is given a reference to. *)
Lemma join_projects_run owners inactive pre ds out :
  join_projects (seq (length pre) (length ds)) owners inactive (World (pre ++ ds) out) =
    (Ok tt, World (pre ++ (joined owners inactive <$> ds)) out).
Proof.
  unfold join_projects. revert pre.
  induction ds as [|d ds IH]; intros pre; simpl; [done|].
  erewrite bind_ok; cycle 1.
  { erewrite bind_ok by apply getitem_at.
    erewrite bind_ok by apply setitem_owners_at.
    erewrite bind_ok by apply getitem_at.
    apply setitem_inactive_at. }
  simpl.
  specialize (IH (pre ++ [joined owners inactive d])).
  rewrite length_app, Nat.add_1_r, <-!app_assoc in IH. apply IH.
Qed.

Lemma getitem_run f p w d : heap w !! p = Some d → getitem f p w = (Ok (f d), w).
Proof. intros Hp. unfold getitem, bind, load. by rewrite Hp. Qed.

Lemma getitem_owners_run p w d v :
  heap w !! p = Some d → owners d = Some v → getitem_owners p w = (Ok v, w).
Proof. intros Hp Hv. unfold getitem_owners, bind, load. by rewrite Hp, Hv. Qed.

Lemma getitem_inactive_run p w d v :
  heap w !! p = Some d → inactive d = Some v → getitem_inactive p w = (Ok v, w).
Proof. intros Hp Hv. unfold getitem_inactive, bind, load. by rewrite Hp, Hv. Qed.

Lemma sort_key_run p w d :
  heap w !! p = Some d → is_Some (inactive d) → sort_key p w = (Ok (key_of d), w).
Proof.
  intros Hp [v Hv]. unfold sort_key.
  erewrite bind_ok by by eapply getitem_inactive_run.
  erewrite bind_ok by by eapply getitem_run.
  unfold key_of. by rewrite Hv.
Qed.

Lemma map_m_sort_key w ps ds :
  at_locs w ps ds → Forall populated ds →
  map_m sort_key ps w = (Ok (key_of <$> ds), w).
Proof.
  induction 1 as [|p d ps ds Hp Hps IH]; intros Hpop; simpl; [done|].
  apply Forall_cons in Hpop as [[_ Hd] Hpop].
  erewrite bind_ok by by eapply sort_key_run.
  erewrite bind_ok by by apply IH. done.
Qed.

(** [list.sort] leaves the world as it is and lists the references in the
    order of the dicts sorted on their keys. *)
Lemma list_sort_run w ps ds :
  at_locs w ps ds → Forall populated ds →
  ∃ ps', list_sort key_ltb sort_key ps w = (Ok ps', w) ∧
         ps' ≡ₚ ps ∧ at_locs w ps' (sort_by key_ltb key_of ds).
Proof.
  intros Hat Hpop. unfold list_sort.
  erewrite bind_ok by by apply map_m_sort_key.
  eexists. split; [done|]. split.
  - rewrite sort_by_Permutation. rewrite snd_zip; [done|].
    rewrite length_fmap. by erewrite Forall2_length.
  - unfold at_locs. apply Forall2_fmap_l.
    eapply Forall2_impl.
    + apply (sort_by_Forall2 key_ltb fst key_of
               (λ kp d, kp.1 = key_of d ∧ heap w !! kp.2 = Some d)).
      * by intros ?? [? _].
      * clear Hpop. induction Hat; simpl; constructor; auto.
    + by intros ?? [_ ?].
Qed.

Lemma row_of_lookup show d h :
  h ∈ headers show → row_of show d !! h = Some (cell h d).
Proof.
  intros Hh. apply list_elem_of_In in Hh.
  destruct show; simpl in Hh; intuition subst; by vm_compute.
Qed.

Lemma max_of_run l w : l ≠ [] → max_of l w = (Ok (max_list l), w).
Proof.
  destruct l as [|x l]; [done|]. intros _.
  unfold max_of, ret. do 2 f_equal. simpl. revert x.
  induction l as [|y l IH]; intros x; simpl; [lia|]. rewrite IH. simpl. lia.
Qed.

(** The widths after the loop over the columns. *)
Lemma widths_lookup ds (hs : list string) (acc : gmap string nat) h :
  h ∈ hs →
  foldl (λ m col, <[col := col_width ds col]> m) acc hs !! h = Some (col_width ds h).
Proof.
  revert acc. induction hs as [|x hs IH] using rev_ind; intros acc Hh.
  { by apply elem_of_nil in Hh. }
  rewrite foldl_snoc. destruct (decide (x = h)) as [->|Hne].
  - by rewrite lookup_insert_eq.
  - rewrite lookup_insert_ne by done. apply IH.
    apply elem_of_app in Hh as [?|Hh]; [done|].
    apply list_elem_of_singleton in Hh. congruence.
Qed.

(** On populated dicts, of which there is at least one, [print_report]
    writes the table of them and nothing else. *)
Lemma print_report_run show w ps ds :
  at_locs w ps ds → Forall populated ds → ds ≠ [] →
  print_report ps show w = (Ok tt, World (heap w) (stdout w ++ table show ds)).
Proof.
  intros Hat Hpop Hne. unfold print_report.
  (* the rows *)
  match goal with |- bind (for_in ps ?body []) _ _ = _ =>
    assert (∀ acc, for_in ps body acc w = (Ok (acc ++ (row_of show <$> ds)), w))
      as Hrows
  end.
  { clear Hne. induction Hat as [|p d ps ds Hp Hps IH]; intros acc; simpl.
    { by rewrite app_nil_r. }
    apply Forall_cons in Hpop as [[[os Hos] [i Hi]] Hpop].
    erewrite bind_ok; cycle 1.
    { erewrite bind_ok by by eapply getitem_owners_run.
      do 3 (erewrite bind_ok by by eapply getitem_run).
      match goal with |- bind (if show then ?a else ?b) _ _ = _ =>
        assert ((if show then a else b) w = (Ok (row_of show d), w)) as Hrow
      end.
      { unfold row_of. rewrite Hos, Hi. destruct show; [|done].
        by erewrite bind_ok by by eapply getitem_inactive_run. }
      erewrite bind_ok by apply Hrow. reflexivity. }
    rewrite IH by done. by rewrite <-app_assoc. }
  erewrite bind_ok by apply Hrows. rewrite app_nil_l. cbv beta. clear Hrows.
  (* the widths *)
  assert (∀ h ds', h ∈ headers show →
    map_m (λ row : gmap string string,
             cell <- lookup_item row h ;; ret (Str.len cell)) (row_of show <$> ds') w =
    (Ok ((λ d, Str.len (cell h d)) <$> ds'), w)) as Hlens.
  { intros h ds' Hh. induction ds' as [|d ds' IH]; simpl; [done|].
    erewrite bind_ok; cycle 1.
    { unfold lookup_item. rewrite row_of_lookup by done. reflexivity. }
    by erewrite bind_ok by apply IH. }
  match goal with |- bind (for_in (headers show) ?body _) _ _ = _ =>
    assert (∀ hs acc, hs ⊆ headers show →
      for_in hs body acc w =
        (Ok (foldl (λ m col, <[col := col_width ds col]> m) acc hs), w)) as Hwidths
  end.
  { induction hs as [|h hs IH]; intros acc Hhs; simpl; [done|].
    erewrite bind_ok; cycle 1.
    { erewrite bind_ok by (apply Hlens, Hhs; left).
      erewrite bind_ok by by apply max_of_run; intros ?%fmap_nil_inv.
      reflexivity. }
    apply IH. intros ??. apply Hhs. by right. }
  erewrite bind_ok by by apply Hwidths. clear Hwidths Hlens.
  set (widths := foldl _ ∅ (headers show)).
  assert (∀ h, h ∈ headers show → widths !! h = Some (col_width ds h)) as Hw.
  { intros h Hh. by apply widths_lookup. }
  clearbody widths.
  (* the header and the separator *)
  erewrite bind_ok; cycle 1.
  { apply (map_m_pure (λ h, Str.ljust h (col_width ds h))).
    intros h Hh. unfold lookup_item. by rewrite (Hw h Hh). }
  do 2 (erewrite bind_ok by reflexivity).
  (* the lines *)
  match goal with |- for_each _ ?body ?w0 = _ =>
    assert (∀ ds' w', for_each (row_of show <$> ds') body w' =
      (Ok tt, World (heap w')
                (stdout w' ++ ((λ d, line ds (λ h, cell h d) (headers show)) <$> ds'))))
      as Hlines
  end.
  { induction ds' as [|d ds' IH]; intros w'.
    { simpl. rewrite app_nil_r. by destruct w'. }
    rewrite !fmap_cons. cbn [for_each].
    erewrite bind_ok; cycle 1.
    { erewrite bind_ok; cycle 1.
      { apply (map_m_pure (λ h, Str.ljust (cell h d) (col_width ds h))).
        intros h Hh. unfold lookup_item. rewrite row_of_lookup by done.
        erewrite bind_ok by reflexivity. by rewrite (Hw h Hh). }
      reflexivity. }
    rewrite IH. unfold print, line. cbn [heap stdout]. by rewrite <-app_assoc. }
  rewrite Hlines. unfold table, line. cbn [heap stdout].
  by rewrite <-!app_assoc.
Qed.

Lemma print_report_empty show w :
  print_report [] show w = (Raise (ValueError "max() iterable argument is empty"), w).
Proof. by destruct show. Qed.

(** *** The whole run *)

Lemma at_locs_seq pre ds out :
  at_locs (World (pre ++ ds) out) (seq (length pre) (length ds)) ds.
Proof.
  unfold at_locs. simpl. revert pre.
  induction ds as [|d ds IH]; intros pre; simpl; constructor.
  - by apply list_lookup_middle.
  - specialize (IH (pre ++ [d])).
    rewrite length_app, Nat.add_1_r, <-app_assoc in IH. apply IH.
Qed.

Lemma joined_populated owners inactive d : populated (joined owners inactive d).
Proof. split; by eexists. Qed.

(** [main] from the start is [report]. *)
Lemma main_report `{SetOrder} api org_id show :
  main api org_id show start = report api org_id show.
Proof.
  unfold main, report.
  destruct (fetch_projects_run api org_id start) as (ds & Hw & Hps).
  destruct (fetch_projects api org_id start) as [[ps|e] w1] eqn:Hf;
    simpl in Hw, Hps; subst w1; [|by rewrite (bind_raise _ _ _ _ _ Hf)].
  rewrite (Hps ps eq_refl) in *. clear Hps.
  rewrite (bind_ok _ _ _ _ _ Hf).
  unfold bind at 1. rewrite fetch_project_owners_run.
  destruct (failure (search_all_iam_policies _ _)) as [e|]; [done|].
  unfold bind at 1. rewrite fetch_inactive_project_numbers_run.
  cbv zeta. destruct (failure (list_recommendations _ _)) as [e|]; [done|].
  set (owners := list_of_set <$> _). set (inactive := accumulate_inactive _).
  cbn [heap].
  rewrite (bind_ok _ _ _ _ _ (join_projects_run owners inactive [] ds [])).
  rewrite !app_nil_l.
  set (js := joined owners inactive <$> ds).
  assert (Forall populated js) as Hpop.
  { apply Forall_fmap, Forall_true. intros d. apply joined_populated. }
  assert (at_locs (World js []) (seq 0 (length ds)) js) as Hat.
  { rewrite <-(length_fmap (joined owners inactive) ds).
    apply (at_locs_seq [] js []). }
  destruct (list_sort_run _ _ _ Hat Hpop) as (ps' & Hsort & Hperm & Hat').
  rewrite (bind_ok _ _ _ _ _ Hsort).
  destruct js as [|j js'] eqn:Hjs.
  - apply fmap_nil_inv in Hjs as ->. simpl in Hperm.
    apply Permutation_nil_r in Hperm as ->. apply print_report_empty.
  - rewrite <-Hjs in *. rewrite (print_report_run show _ _ _ Hat').
    + done.
    + by rewrite sort_by_Permutation.
    + intros Hnil. apply (f_equal length) in Hnil.
      rewrite sort_by_length, Hjs in Hnil. done.
Qed.

(** [main] ends well when the three services answer, the results have the
    expected shape and their times, and there is a project. *)
Lemma main_ends_well `{SetOrder} api org_id show :
  failure (search_all_resources api ("organizations/" +:+ org_id)) = None →
  failure (search_all_iam_policies api ("organizations/" +:+ org_id)) = None →
  failure (list_recommendations api
    ("organizations/" +:+ org_id +:+
     "/locations/global/recommenders/google.resourcemanager.projectUtilization.Recommender")) = None →
  Forall (λ r, Str.contains "/projects/" (asset_name r) = true ∧
               Str.contains "/" (asset_project r) = true ∧
               is_Some (asset_create_time r))
    (items (search_all_resources api ("organizations/" +:+ org_id))) →
  items (search_all_resources api ("organizations/" +:+ org_id)) ≠ [] →
  (main api org_id show start).1 = Ok tt.
Proof.
  intros H1 H2 H3 Hitems Hne. rewrite main_report. unfold report.
  destruct (fetch_projects_ok api org_id start H1 Hitems) as (ps & ds & -> & Hlen).
  rewrite H2, H3. cbv zeta. simpl.
  destruct ds as [|d ds]; [|done].
  destruct (items _); [done|]. done.
Qed.

(** *** What the accumulating loops hold *)

Lemma add_binding_elem pid (owners : gmap string (list string)) b k u :
  u ∈ default [] (add_binding pid owners b !! k) ↔
    u ∈ default [] (owners !! k) ∨
    (k = pid ∧ role b = "roles/owner" ∧
     ∃ m, m ∈ members b ∧ Str.startswith "user:" m = true ∧ u = username m).
Proof.
  unfold add_binding, setdefault_extend. case_decide as Hrole; [|tauto].
  destruct (decide (k = pid)) as [->|Hne].
  - rewrite lookup_insert_eq. simpl. rewrite elem_of_app, list_elem_of_fmap.
    setoid_rewrite list_elem_of_filter. split.
    + intros [?|(m & -> & ? & ?)]; [by left|right; eauto 10].
    + intros [?|(_ & _ & m & ? & ? & ->)]; [by left|right; eauto].
  - rewrite lookup_insert_ne by done. tauto.
Qed.

Lemma add_policy_elem (owners : gmap string (list string)) policy k u :
  u ∈ default [] (add_policy owners policy !! k) ↔
    u ∈ default [] (owners !! k) ∨
    (k = path_project (resource policy) ∧
     ∃ b m, b ∈ bindings policy ∧ role b = "roles/owner" ∧
            m ∈ members b ∧ Str.startswith "user:" m = true ∧ u = username m).
Proof.
  unfold add_policy. generalize (path_project (resource policy)). intros pid.
  revert owners. induction (bindings policy) as [|b bs IH]; intros owners; simpl.
  { split; [by left|]. intros [?|(_ & b & m & []%elem_of_nil & _)]. done. }
  rewrite IH, add_binding_elem. setoid_rewrite elem_of_cons. split.
  - intros [[?|(-> & ? & m & ?)]|(-> & b' & m & ? & ?)]; [by left|right..].
    + split; [done|]. exists b, m. tauto.
    + split; [done|]. exists b', m. tauto.
  - intros [?|(-> & b' & m & [->|?] & ?)]; [by left; left|..].
    + left; right. split; [done|]. split; [tauto|]. exists m. tauto.
    + right. split; [done|]. exists b', m. tauto.
Qed.

Lemma accumulate_owners_elem policies k u :
  u ∈ default [] (accumulate_owners policies !! k) ↔ owner_of policies k u.
Proof.
  unfold accumulate_owners, owner_of.
  assert (∀ owners : gmap string (list string),
    u ∈ default [] (foldl add_policy owners policies !! k) ↔
      u ∈ default [] (owners !! k) ∨ owner_of policies k u) as Hfold.
  { unfold owner_of. induction policies as [|policy ps IH]; intros owners; simpl.
    { split; [by left|]. intros [?|(? & ? & ? & []%elem_of_nil & _)]. done. }
    rewrite IH, add_policy_elem. setoid_rewrite elem_of_cons. split.
    - intros [[?|(-> & b & m & ?)]|(p & b & m & ? & ?)]; [by left|right..].
      + exists policy, b, m. tauto.
      + exists p, b, m. tauto.
    - intros [?|(p & b & m & [->|?] & <- & ?)]; [by left; left|..].
      + left; right. split; [done|]. exists b, m. tauto.
      + right. exists p, b, m. tauto. }
  rewrite Hfold, lookup_empty. simpl. rewrite elem_of_nil. unfold owner_of. tauto.
Qed.

(** [list(set(...))] keeps the usernames and drops the repetitions. *)
Lemma owners_dedup `{SetOrder} (owners : gmap string (list string)) k :
  NoDup (default [] ((list_of_set <$> owners) !! k)) ∧
  ∀ u, u ∈ default [] ((list_of_set <$> owners) !! k) ↔ u ∈ default [] (owners !! k).
Proof.
  rewrite lookup_fmap. destruct (owners !! k) as [l|]; simpl.
  - split; [apply list_of_set_NoDup|apply list_of_set_elem].
  - split; [constructor|done].
Qed.

Lemma add_operation_elem inactive op n :
  n ∈ add_operation inactive op ↔
    n ∈ inactive ∨
    (Str.contains "/projects/" (op_resource op) = true ∧
     path_project (op_resource op) = n).
Proof.
  unfold add_operation. destruct (Str.contains _ _).
  - rewrite elem_of_union, elem_of_singleton. intuition.
  - intuition discriminate.
Qed.

Lemma accumulate_inactive_elem recs n :
  n ∈ accumulate_inactive recs ↔ flagged recs n.
Proof.
  assert (∀ ops (inactive : gset string),
    n ∈ foldl add_operation inactive ops ↔
      n ∈ inactive ∨ ∃ op, op ∈ ops ∧
        Str.contains "/projects/" (op_resource op) = true ∧
        path_project (op_resource op) = n) as Hops.
  { induction ops as [|op ops IH]; intros inactive; simpl.
    { split; [by left|]. intros [?|(? & []%elem_of_nil & _)]. done. }
    rewrite IH, add_operation_elem. setoid_rewrite elem_of_cons. split.
    - intros [[?|?]|(op' & ? & ?)]; [by left|right..]; eauto.
    - intros [?|(op' & [->|?] & ?)]; [by left; left|by left; right|right; eauto]. }
  assert (∀ groups (inactive : gset string),
    n ∈ foldl (λ inactive group, foldl add_operation inactive (operations group))
          inactive groups ↔
      n ∈ inactive ∨ ∃ group op, group ∈ groups ∧ op ∈ operations group ∧
        Str.contains "/projects/" (op_resource op) = true ∧
        path_project (op_resource op) = n) as Hgroups.
  { induction groups as [|group groups IH]; intros inactive; simpl.
    { split; [by left|]. intros [?|(? & ? & []%elem_of_nil & _)]. done. }
    rewrite IH, Hops. setoid_rewrite elem_of_cons. split.
    - intros [[?|(op & ? & ?)]|(g & op & ? & ?)]; [by left|right..]; eauto 10.
    - intros [?|(g & op & [->|?] & ?)]; [by left; left|left; right|right]; eauto. }
  unfold accumulate_inactive, flagged.
  assert (∀ inactive : gset string,
    n ∈ foldl add_recommendation inactive recs ↔
      n ∈ inactive ∨ flagged recs n) as Hrecs.
  { unfold flagged. induction recs as [|rec recs IH]; intros inactive; simpl.
    { split; [by left|]. intros [?|(? & ? & ? & []%elem_of_nil & _)]. done. }
    rewrite IH. unfold add_recommendation. rewrite Hgroups.
    setoid_rewrite elem_of_cons. split.
    - intros [[?|(g & op & ? & ?)]|(r & g & op & ? & ?)]; [by left|right..].
      + exists rec, g, op. tauto.
      + exists r, g, op. tauto.
    - intros [?|(r & g & op & [->|?] & ?)]; [by left; left|left; right|right].
      + exists g, op. tauto.
      + exists r, g, op. tauto. }
  rewrite Hrecs, elem_of_empty. unfold flagged. tauto.
Qed.

(** *** Resource paths and members *)

Lemma cut_char_app (c : ascii) a b :
  absent (String c "") a →
  Str.cut (String c "") (a +:+ String c "" +:+ b) = Some (a, b).
Proof.
  induction a as [|x a IH]; intros Habs.
  - rewrite StrFacts.cut_unfold, StrFacts.app_nil_l. simpl.
    by rewrite decide_True.
  - rewrite StrFacts.app_cons, StrFacts.cut_unfold. simpl.
    rewrite decide_False; cycle 1.
    { intros ->. by destruct (Habs "" a). }
    rewrite IH; [done|]. intros a' b' ->.
    by destruct (Habs (String x a') b').
Qed.


(** The project of a path that holds no ["/projects/"] is what the path
    holds before its first ["/"]. *)
Lemma path_project_absent path :
  Str.contains "/projects/" path = false →
  before_first_slash path (path_project path).
Proof.
  intros Hc%StrFacts.contains_false. unfold path_project, before_first_slash.
  rewrite (StrFacts.split_absent "/projects/" path ltac:(done) Hc).
  change (Str.last [path]) with path.
  rewrite StrFacts.first_split by done.
  destruct (Str.cut "/" path) as [[a b]|] eqn:Hcut.
  - right. exists b. split; [by apply StrFacts.cut_Some|].
    intros x y. by eapply StrFacts.cut_char_before.
  - left. split; [|done]. intros x y. by apply StrFacts.cut_None.
Qed.

(** The username of a user member is the local part of the address. *)
Lemma username_local local domain :
  absent "@" local → username ("user:" +:+ local +:+ "@" +:+ domain) = local.
Proof.
  intros Habs. unfold username. rewrite StrFacts.removeprefix_app.
  rewrite StrFacts.first_split by done. by rewrite cut_char_app.
Qed.

(** ** Splitting at the last separator *)

Lemma str_app_split x y u v :
  x +:+ y = u +:+ v → Str.size x ≤ Str.size u → ∃ z, u = x +:+ z ∧ y = z +:+ v.
Proof.
  revert u. induction x as [|c x IH]; intros u Heq Hlen.
  - exists u. by rewrite StrFacts.app_nil_l in *.
  - destruct u as [|c' u]; [rewrite StrFacts.size_cons in Hlen; unfold Str.size in Hlen; simpl in Hlen; lia|].
    rewrite !StrFacts.app_cons in Heq. injection Heq as -> Heq.
    rewrite !StrFacts.size_cons in Hlen.
    destruct (IH u Heq ltac:(lia)) as (z & -> & ->). by exists z.
Qed.

Lemma str_app_inv_len x y u v :
  x +:+ y = u +:+ v → Str.size x = Str.size u → x = u ∧ y = v.
Proof.
  intros Heq Hlen. destruct (str_app_split x y u v Heq ltac:(lia)) as (z & -> & ->).
  rewrite StrFacts.size_app in Hlen. assert (z = "") as -> by (apply StrFacts.size_0; lia).
  by rewrite StrFacts.app_nil_r.
Qed.

Lemma rcut_Some sep s a b : Str.rcut sep s = Some (a, b) → s = a +:+ sep +:+ b.
Proof.
  revert a. induction s as [|c s IH]; intros a; simpl.
  - destruct (Str.strip_prefix sep "") as [r|] eqn:Hp; [|done].
    intros [= <- <-]. by apply StrFacts.strip_prefix_Some in Hp.
  - destruct (Str.rcut sep s) as [[a' b']|].
    + intros [= <- <-]. rewrite StrFacts.app_cons. f_equal. by apply IH.
    + destruct (Str.strip_prefix sep (String c s)) as [r|] eqn:Hp; [|done].
      intros [= <- <-]. by apply StrFacts.strip_prefix_Some in Hp.
Qed.

Lemma rcut_None sep s : Str.rcut sep s = None → absent sep s.
Proof.
  intros Hr. apply StrFacts.contains_false.
  destruct (Str.contains sep s) eqn:Hc; [|done].
  apply rcut_is_Some in Hc as [? Hc]. congruence.
Qed.

(** [rcut] splits around the last occurrence. *)
Lemma rcut_rightmost sep s a b a' b' :
  Str.rcut sep s = Some (a, b) → s = a' +:+ sep +:+ b' → Str.size a' ≤ Str.size a.
Proof.
  revert a a'. induction s as [|c s IH]; intros a a' Hr Hs.
  - destruct a'; [unfold Str.size; simpl; lia|done].
  - simpl in Hr. destruct a' as [|c' a'']; [unfold Str.size; simpl; lia|].
    rewrite StrFacts.app_cons in Hs. injection Hs as <- Hs.
    destruct (Str.rcut sep s) as [[a0 b0]|] eqn:Hr'.
    + injection Hr as <- <-. rewrite !StrFacts.size_cons.
      apply le_n_S. by eapply IH.
    + apply rcut_None in Hr'. by destruct (Hr' a'' b').
Qed.


(** After a separator that ends with [c], a text without [c] is found again. *)
Lemma rcut_app sep0 (c : ascii) pre t :
  absent (String c "") t →
  Str.rcut (sep0 +:+ String c "") (pre +:+ (sep0 +:+ String c "") +:+ t) = Some (pre, t).
Proof.
  intros Habs. set (sep := sep0 +:+ String c "").
  destruct (rcut_is_Some sep (pre +:+ sep +:+ t)) as [[a b] Hr].
  { apply StrFacts.contains_true. by eexists _, _. }
  rewrite Hr. pose proof (rcut_Some _ _ _ _ Hr) as Hs.
  pose proof (rcut_rightmost _ _ _ _ pre t Hr eq_refl) as Hle.
  destruct (str_app_split _ _ _ _ Hs Hle) as (z & -> & Hz).
  destruct z as [|x z].
  - rewrite StrFacts.app_nil_l in Hz. rewrite StrFacts.app_nil_r.
    by apply (inj (String.app sep)) in Hz as ->.
  - exfalso. unfold sep in Hz at 2. rewrite <-!StrFacts.app_assoc in Hz.
    rewrite (StrFacts.app_assoc _ (String c "") b) in Hz.
    destruct (str_app_split sep t (((String x z) +:+ sep0)) (String c "" +:+ b) Hz)
      as (z2 & _ & Ht).
    { unfold sep. rewrite !StrFacts.size_app. unfold Str.size. simpl. lia. }
    by destruct (Habs z2 b).
Qed.

(** A path that holds ["/projects/"] once, followed by a segment, gives
    that segment. *)
Lemma path_project_once pre n rest :
  (∀ a b, pre +:+ "/projects/" +:+ n +:+ rest = a +:+ "/projects/" +:+ b → a = pre) →
  absent "/" n → (rest = "" ∨ ∃ r, rest = "/" +:+ r) →
  path_project (pre +:+ "/projects/" +:+ n +:+ rest) = n.
Proof.
  intros Honce Hn Hrest. unfold path_project.
  set (path := pre +:+ "/projects/" +:+ n +:+ rest) in *.
  assert (Str.cut "/projects/" path = Some (pre, n +:+ rest)) as Hcut.
  { destruct (Str.cut "/projects/" path) as [[a b]|] eqn:Hc.
    - pose proof (StrFacts.cut_Some _ _ _ _ Hc) as Hp.
      pose proof (Honce a b Hp) as ->. unfold path in Hp.
      apply (inj (String.app pre)), (inj (String.app "/projects/")) in Hp.
      by rewrite Hp.
    - apply StrFacts.cut_None in Hc. by destruct (Hc pre (n +:+ rest)). }
  assert (absent "/projects/" (n +:+ rest)) as Habs.
  { intros x y Hxy.
    pose proof (Honce (pre +:+ "/projects/" +:+ x) y) as Hpre.
    unfold path in Hpre. rewrite Hxy, !StrFacts.app_assoc in Hpre.
    specialize (Hpre eq_refl). apply (f_equal Str.size) in Hpre.
    rewrite !StrFacts.size_app in Hpre. unfold Str.size in Hpre. simpl in Hpre. lia. }
  rewrite (StrFacts.split_unfold "/projects/" path) by done. rewrite Hcut.
  rewrite (StrFacts.split_absent "/projects/" (n +:+ rest) ltac:(done) Habs).
  change (Str.last [pre; n +:+ rest]) with (n +:+ rest).
  rewrite StrFacts.first_split by done.
  destruct Hrest as [->|[r ->]].
  - rewrite StrFacts.app_nil_r. by rewrite (proj2 (StrFacts.cut_None "/" n) Hn).
  - by rewrite (cut_char_app "/" n r Hn).
Qed.

(** A separator that [cut] and [rcut] find at the same place occurs once. *)
Lemma occurs_once sep s a b b' :
  Str.cut sep s = Some (a, b) → Str.rcut sep s = Some (a, b') →
  ∀ x y, s = x +:+ sep +:+ y → x = a.
Proof.
  intros Hc Hr x y Hs.
  pose proof (StrFacts.cut_leftmost _ _ _ _ x y Hc Hs) as Hle.
  pose proof (rcut_rightmost _ _ _ _ x y Hr Hs) as Hge.
  apply StrFacts.cut_Some in Hc. rewrite Hc in Hs.
  symmetry. by apply (str_app_inv_len a (sep +:+ b) x (sep +:+ y)); [|lia].
Qed.

(** ** The properties of the specification *)

(** A run of [main] that ends well has joined the dicts of the heap and
    written the table of them as sorted. *)
Lemma main_ok `{SetOrder} api org_id show w :
  main api org_id show start = (Ok tt, w) →
  ∃ ds0 : list project,
    let owners := list_of_set <$> accumulate_owners
      (items (search_all_iam_policies api ("organizations/" +:+ org_id))) in
    let inactive := accumulate_inactive (items (list_recommendations api
      ("organizations/" +:+ org_id +:+
       "/locations/global/recommenders/google.resourcemanager.projectUtilization.Recommender"))) in
    heap w = joined owners inactive <$> ds0 ∧
    stdout w = table show (sort_by key_ltb key_of (heap w)).
Proof.
  rewrite main_report. unfold report.
  destruct (fetch_projects api org_id start) as [[ps|e] w1]; [|done].
  destruct (failure (search_all_iam_policies _ _)); [done|].
  destruct (failure (list_recommendations _ _)); [done|].
  cbv zeta. destruct (joined _ _ <$> heap w1) as [|d ds] eqn:Hds; [done|].
  intros [= <-]. exists (heap w1). simpl. by rewrite Hds.
Qed.

Lemma sort_by_inactives_first ds :
  Forall populated ds → inactives_first (sort_by key_ltb key_of ds).
Proof.
  intros Hpop i j a b Hij Ha Hb.
  pose proof (sort_by_ordered key_ltb key_of key_ltb_asym key_ltb_le_trans
                ds i j a b Hij Ha Hb) as Hord.
  assert (∀ k d, sort_by key_ltb key_of ds !! k = Some d → populated d) as Hp.
  { intros k d Hd. rewrite Forall_forall in Hpop. apply Hpop.
    rewrite <-(sort_by_Permutation key_ltb key_of ds).
    by eapply list_elem_of_lookup_2. }
  destruct (Hp i a Ha) as [_ [ia Hia]]. destruct (Hp j b Hb) as [_ [ib Hib]].
  apply (key_ltb_false a b ia ib Hia Hib) in Hord. rewrite Hia, Hib.
  destruct Hord as [[-> ->]|[-> ?]]; [by left|by right].
Qed.

(** C1, as the program has it.  The records of the table come in the order
    of a sort that puts the inactive projects first and, among the projects
    that are all active or all inactive, the earlier creation date first:
    of two records A, B printed in that order, either A is inactive and B
    is not, or both are alike and the date of A is not after the date of B.
    In the scenario of three projects the order printed is P2, P3, P1. *)
Theorem report_inactive_first :
  (∀ (O : SetOrder) api org_id show w,
     main api org_id show start = (Ok tt, w) →
     ∃ ds, ds ≡ₚ heap w ∧ stdout w = table show ds ∧ inactives_first ds) ∧
  (main three_projects "123" true start).1 = Ok tt ∧
  stdout (main three_projects "123" true start).2 =
    ["display_name  owners      create_date  project_id  inactive";
     "-----------------------------------------------------------";
     "P2            -           2021-06-15   p2          True    ";
     "P3            bob, carol  2019-03-03   p3          False   ";
     "P1            alice       2020-01-01   p1          False   "].
Proof.
  split; [|by vm_compute].
  intros O api org_id show w Hrun.
  destruct (main_ok _ _ _ _ Hrun) as (ds0 & Hheap & Hout).
  exists (sort_by key_ltb key_of (heap w)).
  split; [apply sort_by_Permutation|]. split; [done|].
  apply sort_by_inactives_first. rewrite Hheap.
  apply Forall_fmap, Forall_true. intros d. apply joined_populated.
Qed.

Lemma report_inactive_first_witness :
  main three_projects "123" true start =
    (Ok tt, (main three_projects "123" true start).2) ∧
  ∃ ds, ds ≡ₚ heap (main three_projects "123" true start).2 ∧
        stdout (main three_projects "123" true start).2 = table true ds ∧
        inactives_first ds.
Proof.
  split; [by vm_compute|].
  apply (proj1 report_inactive_first first_seen three_projects "123" true).
  by vm_compute.
Defined.

(** C1, as stated, fails on the scenario of three projects: the table lists
    P2, P3, P1, not P3, P1, P2, and the inactive P2 comes before the
    active P3. *)
Lemma actives_first_counterexample :
  ∃ w ds,
    main three_projects "123" true start = (Ok tt, w) ∧
    ds ≡ₚ heap w ∧ stdout w = table true ds ∧
    display_name <$> ds = ["P2"; "P3"; "P1"] ∧
    display_name <$> ds ≠ ["P3"; "P1"; "P2"] ∧
    ¬ actives_first ds.
Proof.
  eexists _, [Project "p2" "2" "P2" "2021-06-15" (Some []) (Some true);
              Project "p3" "3" "P3" "2019-03-03" (Some ["carol"; "bob"]) (Some false);
              Project "p1" "1" "P1" "2020-01-01" (Some ["alice"]) (Some false)].
  split; [by vm_compute|]. simpl. split.
  { symmetry. apply (Permutation_cons_append [_; _]). }
  split; [by vm_compute|]. split; [done|]. split; [done|].
  intros Hord. destruct (Hord 0 1 _ _ ltac:(lia) eq_refl eq_refl) as [[? _]|[? _]]; done.
Qed.

(** C2 does not hold of the program.  Given no project, [print_report]
    raises [ValueError] where it takes the [max] of the lengths of the cells
    of the first column, before it has printed the header: nothing is
    written.  So does [main] for an organization without projects. *)
Theorem print_report_no_rows :
  (∀ show w,
     print_report [] show w =
       (Raise (ValueError "max() iterable argument is empty"), w)) ∧
  (∀ show,
     main no_projects "123" show start =
       (Raise (ValueError "max() iterable argument is empty"), start)).
Proof.
  split.
  - intros show w. apply print_report_empty.
  - intros show. rewrite main_report. by vm_compute.
Qed.

(** The dicts of the heap after a run that ends well: what [main_ok] gives
    for one of them. *)
Lemma main_ok_dict `{SetOrder} api org_id show w d :
  main api org_id show start = (Ok tt, w) → d ∈ heap w →
  let policies := items (search_all_iam_policies api ("organizations/" +:+ org_id)) in
  let recs := items (list_recommendations api
    ("organizations/" +:+ org_id +:+
     "/locations/global/recommenders/google.resourcemanager.projectUtilization.Recommender")) in
  ∃ us, owners d = Some us ∧ NoDup us ∧
        (∀ u, u ∈ us ↔ owner_of policies (project_id d) u) ∧
        ∃ i, inactive d = Some i ∧ (i = true ↔ flagged recs (project_number d)).
Proof.
  intros Hrun Hd. destruct (main_ok _ _ _ _ Hrun) as (ds0 & Hheap & _).
  cbv zeta in *. rewrite Hheap in Hd.
  apply list_elem_of_fmap in Hd as (d0 & -> & _). simpl.
  eexists. split; [done|].
  destruct (owners_dedup (accumulate_owners
    (items (search_all_iam_policies api ("organizations/" +:+ org_id))))
    (project_id d0)) as [Hnd Hel].
  split; [done|]. split.
  - intros u. by rewrite Hel, accumulate_owners_elem.
  - eexists. split; [done|].
    by rewrite bool_decide_eq_true, accumulate_inactive_elem.
Qed.

(** The widths of the columns do not depend on the order of the dicts. *)
Lemma col_width_Permutation ds ds' h : ds ≡ₚ ds' → col_width ds h = col_width ds' h.
Proof. intros Hp. unfold col_width. by rewrite Hp. Qed.

(** The line of a dict, cell by cell. *)
Lemma line_cells ds d show :
  line ds (λ h, cell h d) (headers show) =
    Str.join "  "
      ([Str.ljust (display_name d) (col_width ds "display_name");
        Str.ljust (owners_str (default [] (owners d))) (col_width ds "owners");
        Str.ljust (create_date d) (col_width ds "create_date");
        Str.ljust (project_id d) (col_width ds "project_id")] ++
       (if show
        then [Str.ljust (Str.of_bool (default false (inactive d)))
                (col_width ds "inactive")]
        else [])).
Proof. by destruct show. Qed.

(** C3.  After the join, the owners of a project dict are, without
    repetition, the usernames of the users of the owner-role bindings of
    the policies whose resource path belongs to the project; with no such
    binding they are none, and the cell of the table is ["-"].  The path of
    a policy belongs to the project when it is a prefix, the one
    ["/projects/"] of the path, the [project_id] and nothing more or a ["/"]
    and more; the username of a member ["user:"], a local part, ["@"] and
    a domain is the local part.  The dict has a line in the text that
    [main] writes, after the header and the dashes: its cells, each padded
    to the width of its column, joined by two spaces, the second of them
    the usernames in order joined by [", "], or ["-"] when there are
    none. *)
Theorem owners_are_joined `{SetOrder} api org_id show w :
  main api org_id show start = (Ok tt, w) →
  let policies := items (search_all_iam_policies api ("organizations/" +:+ org_id)) in
  ∀ d, d ∈ heap w →
    ∃ us, owners d = Some us ∧ NoDup us ∧
          (∀ u, u ∈ us ↔
             ∃ policy b m,
               policy ∈ policies ∧ path_project (resource policy) = project_id d ∧
               b ∈ bindings policy ∧ role b = "roles/owner" ∧
               m ∈ members b ∧ Str.startswith "user:" m = true ∧ u = username m) ∧
          ((∀ policy b, policy ∈ policies → b ∈ bindings policy →
              path_project (resource policy) = project_id d →
              role b ≠ "roles/owner") →
           us = []) ∧
          (us = [] → cell "owners" d = "-") ∧
          (∀ policy b pre rest local domain,
             policy ∈ policies → b ∈ bindings policy → role b = "roles/owner" →
             resource policy = pre +:+ "/projects/" +:+ project_id d +:+ rest →
             (∀ x y, resource policy = x +:+ "/projects/" +:+ y → x = pre) →
             absent "/" (project_id d) → (rest = "" ∨ ∃ r, rest = "/" +:+ r) →
             "user:" +:+ local +:+ "@" +:+ domain ∈ members b → absent "@" local →
             local ∈ us) ∧
          ∃ i, i < length (heap w) ∧ length (stdout w) = 2 + length (heap w) ∧
               stdout w !! (2 + i) =
                 Some (Str.join "  "
                   ([Str.ljust (display_name d) (col_width (heap w) "display_name");
                     Str.ljust (match us with
                                | [] => "-"
                                | _ => Str.join ", " (sorted us)
                                end) (col_width (heap w) "owners");
                     Str.ljust (create_date d) (col_width (heap w) "create_date");
                     Str.ljust (project_id d) (col_width (heap w) "project_id")] ++
                    (if show
                     then [Str.ljust (Str.of_bool (default false (inactive d)))
                             (col_width (heap w) "inactive")]
                     else []))).
Proof.
  intros Hrun policies d Hd.
  destruct (main_ok_dict _ _ _ _ _ Hrun Hd) as (us & Hus & Hnd & Hel & _).
  exists us. split; [done|]. split; [done|]. split; [exact Hel|]. split; [|split; [|split]].
  - intros Hnone. destruct us as [|u us]; [done|]. exfalso.
    destruct (proj1 (Hel u)) as (policy & b & m & ? & ? & ? & ? & _); [by left|].
    by apply (Hnone policy b).
  - intros ->. unfold cell. simpl. by rewrite Hus.
  - intros policy b pre rest local domain Hpolicy Hb Hrole Hres Honce Hid Hrest Hm Hlocal.
    apply Hel. exists policy, b, ("user:" +:+ local +:+ "@" +:+ domain).
    split; [done|]. split.
    { rewrite Hres. apply path_project_once; [|done..]. intros x y. rewrite <-Hres. apply Honce. }
    split; [done|]. split; [done|]. split; [done|]. split.
    { apply StrFacts.startswith_true. by eexists. }
    symmetry. by apply username_local.
  - destruct (main_ok _ _ _ _ Hrun) as (ds0 & _ & Hout).
    pose proof (sort_by_Permutation key_ltb key_of (heap w)) as Hperm.
    assert (d ∈ sort_by key_ltb key_of (heap w)) as Hin by by rewrite Hperm.
    apply list_elem_of_lookup in Hin as [i Hi].
    exists i. split.
    { rewrite <-(Permutation_length Hperm). by eapply lookup_lt_Some. }
    split.
    { rewrite Hout. unfold table. simpl. rewrite length_fmap.
      by rewrite (Permutation_length Hperm). }
    rewrite Hout. unfold table. simpl. rewrite list_lookup_fmap, Hi. simpl.
    f_equal. rewrite line_cells, Hus. simpl.
    by rewrite !(col_width_Permutation _ _ _ Hperm).
Qed.

Lemma owners_are_joined_witness :
  let w := (main three_projects "123" true start).2 in
  main three_projects "123" true start = (Ok tt, w) ∧
  (∃ d us, d ∈ heap w ∧ project_id d = "p1" ∧ owners d = Some us ∧ "alice" ∈ us) ∧
  (∃ d i, d ∈ heap w ∧ project_id d = "p2" ∧ owners d = Some [] ∧
          stdout w !! (2 + i) =
            Some "P2            -           2021-06-15   p2          True    ").
Proof.
  intros w.
  assert (main three_projects "123" true start = (Ok tt, w)) as Hrun by by vm_compute.
  assert (heap w =
    [Project "p1" "1" "P1" "2020-01-01" (Some ["alice"]) (Some false);
     Project "p2" "2" "P2" "2021-06-15" (Some []) (Some true);
     Project "p3" "3" "P3" "2019-03-03" (Some ["carol"; "bob"]) (Some false)])
    as Hheap by by vm_compute.
  split; [exact Hrun|]. split.
  - set (d := Project "p1" "1" "P1" "2020-01-01" (Some ["alice"]) (Some false)).
    assert (d ∈ heap w) as Hd by (rewrite Hheap; by left).
    destruct (owners_are_joined three_projects "123" true w Hrun d Hd)
      as (us & Hus & _ & _ & _ & _ & Hin & _).
    exists d, us. split; [done|]. split; [done|]. split; [done|].
    apply (Hin (IamPolicy "//crm/projects/p1"
                  [Binding "roles/owner" ["user:alice@example.com"]])
               (Binding "roles/owner" ["user:alice@example.com"])
               "//crm" "" "alice" "example.com").
    + by left.
    + by left.
    + done.
    + done.
    + by apply (occurs_once "/projects/" "//crm/projects/p1" "//crm" "p1" "p1").
    + apply StrFacts.cut_None. by vm_compute.
    + by left.
    + by left.
    + apply StrFacts.cut_None. by vm_compute.
  - set (d := Project "p2" "2" "P2" "2021-06-15" (Some []) (Some true)).
    assert (d ∈ heap w) as Hd by (rewrite Hheap; right; by left).
    destruct (owners_are_joined three_projects "123" true w Hrun d Hd)
      as (us & Hus & _ & _ & _ & _ & _ & i & _ & _ & Hline).
    injection Hus as <-.
    exists d, i. split; [done|]. split; [done|]. split; [done|].
    rewrite Hline. by vm_compute.
Defined.




Lemma list_of_set_singleton `{SetOrder} x : list_of_set [x] = [x].
Proof.
  apply Permutation_singleton_r, NoDup_Permutation.
  - apply list_of_set_NoDup.
  - apply NoDup_singleton.
  - apply list_of_set_elem.
Qed.

(** C5.  The usernames [fetch_project_owners] returns for a project are
    those of the members that start with ["user:"] of the bindings whose role
    is ["roles/owner"], and no other; the username of ["user:"], a local part
    without ["@"], ["@"] and a domain is the local part.  On one owner-role
    binding, ["user:jane.doe@example.com"] gives ["jane.doe"] and the service
    account gives nothing. *)
Theorem owner_usernames `{SetOrder} api org_id w :
  (∀ owners w',
     fetch_project_owners api org_id w = (Ok owners, w') →
     ∀ k u, u ∈ default [] (owners !! k) ↔
       ∃ policy b m,
         policy ∈ items (search_all_iam_policies api ("organizations/" +:+ org_id)) ∧
         path_project (resource policy) = k ∧
         b ∈ bindings policy ∧ role b = "roles/owner" ∧
         m ∈ members b ∧ Str.startswith "user:" m = true ∧ u = username m) ∧
  (∀ email, Str.startswith "user:" ("user:" +:+ email) = true) ∧
  (∀ local domain,
     (∀ a b, local ≠ a +:+ "@" +:+ b) →
     username ("user:" +:+ local +:+ "@" +:+ domain) = local) ∧
  username "user:jane.doe@example.com" = "jane.doe" ∧
  Str.startswith "user:" "serviceAccount:x@proj.iam.gserviceaccount.com" = false ∧
  fetch_project_owners jane_binding "123" w = (Ok {["p" := ["jane.doe"]]}, w).
Proof.
  split; [|split; [|split; [|split; [|split]]]].
  - intros owners w'. rewrite fetch_project_owners_run.
    destruct (failure _); [done|]. intros [= <- <-] k u.
    destruct (owners_dedup (accumulate_owners
      (items (search_all_iam_policies api ("organizations/" +:+ org_id)))) k)
      as [_ Hel].
    by rewrite Hel, accumulate_owners_elem.
  - intros email. apply StrFacts.startswith_true. by eexists.
  - intros local domain Habs. by apply username_local.
  - done.
  - done.
  - rewrite fetch_project_owners_run. simpl. do 2 f_equal.
    assert (accumulate_owners
      [IamPolicy "//crm/projects/p"
         [Binding "roles/owner"
            ["user:jane.doe@example.com";
             "serviceAccount:x@proj.iam.gserviceaccount.com"]]] =
      {["p" := ["jane.doe"]]}) as -> by by vm_compute.
    by rewrite map_fmap_singleton, list_of_set_singleton.
Qed.

(** C8.  When a fetch raises, [main] ends with that exception, the exit
    status is not zero, and nothing has been written. *)
Theorem fail_fast `{SetOrder} api org_id show e :
  (fetch_projects api org_id start).1 = Raise e ∨
  (∃ ps w1,
     fetch_projects api org_id start = (Ok ps, w1) ∧
     (fetch_project_owners api org_id w1).1 = Raise e) ∨
  (∃ ps w1 owners w2,
     fetch_projects api org_id start = (Ok ps, w1) ∧
     fetch_project_owners api org_id w1 = (Ok owners, w2) ∧
     (fetch_inactive_project_numbers api org_id w2).1 = Raise e) →
  (main api org_id show start).1 = Raise e ∧
  stdout (main api org_id show start).2 = [] ∧
  exit_status (main api org_id show start).1 ≠ 0.
Proof.
  intros Hfail.
  assert ((main api org_id show start).1 = Raise e ∧
          stdout (main api org_id show start).2 = []) as [Hout Hnil].
  { unfold main.
    destruct Hfail as [H1|[(ps & w1 & H1 & H2)|(ps & w1 & ow & w2 & H1 & H2 & H3)]].
    - pose proof (silent_fetch_projects api org_id start) as Hs1.
      destruct (fetch_projects api org_id start) as [o w1] eqn:Hf1.
      simpl in H1, Hs1. subst o. by rewrite (bind_raise _ _ _ _ _ Hf1).
    - pose proof (silent_fetch_projects api org_id start) as Hs1.
      pose proof (silent_fetch_project_owners api org_id w1) as Hs2.
      rewrite H1 in Hs1. rewrite (bind_ok _ _ _ _ _ H1).
      destruct (fetch_project_owners api org_id w1) as [o w2] eqn:Hf2.
      simpl in H2, Hs1, Hs2. subst o. rewrite (bind_raise _ _ _ _ _ Hf2).
      split; [done|]. simpl. congruence.
    - pose proof (silent_fetch_projects api org_id start) as Hs1.
      pose proof (silent_fetch_project_owners api org_id w1) as Hs2.
      pose proof (silent_fetch_inactive_project_numbers api org_id w2) as Hs3.
      rewrite H1 in Hs1. rewrite H2 in Hs2.
      rewrite (bind_ok _ _ _ _ _ H1), (bind_ok _ _ _ _ _ H2).
      destruct (fetch_inactive_project_numbers api org_id w2) as [o w3] eqn:Hf3.
      simpl in H3, Hs1, Hs2, Hs3. subst o. rewrite (bind_raise _ _ _ _ _ Hf3).
      split; [done|]. simpl. congruence. }
  split; [done|]. split; [done|]. by rewrite Hout.
Qed.

Lemma fail_fast_witness :
  (∃ ps w1,
     fetch_projects policies_refused "123" start = (Ok ps, w1) ∧
     (fetch_project_owners policies_refused "123" w1).1 =
       Raise (ClientError "403 permission denied")) ∧
  (main policies_refused "123" true start).1 =
    Raise (ClientError "403 permission denied") ∧
  stdout (main policies_refused "123" true start).2 = [] ∧
  exit_status (main policies_refused "123" true start).1 ≠ 0.
Proof.
  assert (∃ ps w1,
     fetch_projects policies_refused "123" start = (Ok ps, w1) ∧
     (fetch_project_owners policies_refused "123" w1).1 =
       Raise (ClientError "403 permission denied")) as Hfail.
  { eexists _, _. split; by vm_compute. }
  split; [exact Hfail|].
  apply (fail_fast policies_refused "123" true). right; left. exact Hfail.
Defined.

(** C9.  When the three fetches have returned, the loop of [main] sets
    ["owners"] and ["inactive"] in every project dict, from the mapping at
    the dict's own [project_id] and from the set at its own
    [project_number]; the sort and [print_report] run on the heap the loop
    leaves, and neither changes a dict in it. *)
Theorem population_invariant `{SetOrder} api org_id show ps w1 mapping w2 flags w3 :
  fetch_projects api org_id start = (Ok ps, w1) →
  fetch_project_owners api org_id w1 = (Ok mapping, w2) →
  fetch_inactive_project_numbers api org_id w2 = (Ok flags, w3) →
  ∃ w4 ps',
    join_projects ps mapping flags w3 = (Ok tt, w4) ∧
    length (heap w4) = length ps ∧
    (∀ p, p ∈ ps →
       ∃ d, heap w4 !! p = Some d ∧
            owners d = Some (default [] (mapping !! project_id d)) ∧
            inactive d = Some (bool_decide (project_number d ∈ flags))) ∧
    list_sort key_ltb sort_key ps w4 = (Ok ps', w4) ∧
    ps' ≡ₚ ps ∧
    main api org_id show start = print_report ps' show w4 ∧
    heap (print_report ps' show w4).2 = heap w4.
Proof.
  intros H1 H2 H3.
  destruct (fetch_projects_run api org_id start) as (ds & Hw & Hps).
  rewrite H1 in Hw, Hps. simpl in Hw, Hps. subst w1.
  rewrite (Hps ps eq_refl) in *. clear Hps.
  pose proof H2 as H2'. rewrite fetch_project_owners_run in H2'.
  assert (w2 = World ds []) as -> by (by destruct (failure _); simplify_eq).
  pose proof H3 as H3'. rewrite fetch_inactive_project_numbers_run in H3'.
  assert (w3 = World ds []) as -> by (by destruct (failure _); simplify_eq).
  clear H2' H3'.
  pose proof (join_projects_run mapping flags [] ds []) as Hjoin.
  rewrite !app_nil_l in Hjoin. simpl in Hjoin.
  set (js := joined mapping flags <$> ds) in *.
  assert (Forall populated js) as Hpop.
  { apply Forall_fmap, Forall_true. intros d. apply joined_populated. }
  assert (at_locs (World js []) (seq 0 (length ds)) js) as Hat.
  { rewrite <-(length_fmap (joined mapping flags) ds).
    apply (at_locs_seq [] js []). }
  destruct (list_sort_run _ _ _ Hat Hpop) as (ps' & Hsort & Hperm & _).
  exists (World js []), ps'. split; [done|]. split.
  { simpl. unfold js. by rewrite length_fmap, length_seq. }
  split.
  { intros p Hp. apply elem_of_seq in Hp. simpl.
    destruct (lookup_lt_is_Some_2 ds p) as [d Hd]; [lia|].
    exists (joined mapping flags d). split; [|done].
    unfold js. by rewrite list_lookup_fmap, Hd. }
  split; [done|]. split; [done|]. split.
  - unfold main.
    rewrite (bind_ok _ _ _ _ _ H1), (bind_ok _ _ _ _ _ H2), (bind_ok _ _ _ _ _ H3).
    by rewrite (bind_ok _ _ _ _ _ Hjoin), (bind_ok _ _ _ _ _ Hsort).
  - apply readonly_print_report.
Qed.

Lemma population_invariant_witness :
  ∃ ps w1 mapping flags,
    fetch_projects three_projects "123" start = (Ok ps, w1) ∧
    fetch_project_owners three_projects "123" w1 = (Ok mapping, w1) ∧
    fetch_inactive_project_numbers three_projects "123" w1 = (Ok flags, w1) ∧
    ∃ w4 ps',
      join_projects ps mapping flags w1 = (Ok tt, w4) ∧
      length (heap w4) = length ps ∧
      (∀ p, p ∈ ps →
         ∃ d, heap w4 !! p = Some d ∧
              owners d = Some (default [] (mapping !! project_id d)) ∧
              inactive d = Some (bool_decide (project_number d ∈ flags))) ∧
      list_sort key_ltb sort_key ps w4 = (Ok ps', w4) ∧
      ps' ≡ₚ ps ∧
      main three_projects "123" true start = print_report ps' true w4 ∧
      heap (print_report ps' true w4).2 = heap w4.
Proof.
  eexists _, _, _, _.
  assert (∀ (A B C D : Prop), A → B → C → (A → B → C → D) → A ∧ B ∧ C ∧ D)
    as Hand by tauto.
  apply Hand.
  - by vm_compute.
  - by vm_compute.
  - by vm_compute.
  - apply (population_invariant three_projects "123" true).
Defined.

(** C10.  A policy whose resource path holds no ["/projects/"] is not
    skipped by [fetch_project_owners]: the usernames of its owner-role
    bindings are returned under the key that is the path up to its first
    ["/"], all of it when it holds none.  [fetch_inactive_project_numbers]
    returns a number only for an operation whose path holds
    ["/projects/"]. *)
Theorem owners_of_other_resources `{SetOrder} api org_id w owners w' :
  fetch_project_owners api org_id w = (Ok owners, w') →
  (∀ policy,
     policy ∈ items (search_all_iam_policies api ("organizations/" +:+ org_id)) →
     Str.contains "/projects/" (resource policy) = false →
     ∃ key,
       before_first_slash (resource policy) key ∧
       ∀ b m, b ∈ bindings policy → role b = "roles/owner" →
              m ∈ members b → Str.startswith "user:" m = true →
              username m ∈ default [] (owners !! key)) ∧
  (∀ inactive w'' n,
     fetch_inactive_project_numbers api org_id w = (Ok inactive, w'') →
     n ∈ inactive →
     ∃ rec group op,
       rec ∈ items (list_recommendations api
         ("organizations/" +:+ org_id +:+
          "/locations/global/recommenders/google.resourcemanager.projectUtilization.Recommender")) ∧
       group ∈ operation_groups rec ∧ op ∈ operations group ∧
       Str.contains "/projects/" (op_resource op) = true ∧
       path_project (op_resource op) = n).
Proof.
  intros Hrun. split.
  - intros policy Hpolicy Hc. exists (path_project (resource policy)).
    split; [by apply path_project_absent|].
    intros b m Hb Hrole Hm Huser.
    rewrite fetch_project_owners_run in Hrun.
    destruct (failure _); [done|]. injection Hrun as <- <-.
    destruct (owners_dedup (accumulate_owners
      (items (search_all_iam_policies api ("organizations/" +:+ org_id))))
      (path_project (resource policy))) as [_ Hel].
    rewrite Hel, accumulate_owners_elem. exists policy, b, m. done.
  - intros inactive w'' n Hina Hn.
    rewrite fetch_inactive_project_numbers_run in Hina. cbv zeta in Hina.
    destruct (failure _); [done|]. injection Hina as <- <-.
    by apply accumulate_inactive_elem in Hn.
Qed.

Lemma owners_of_other_resources_witness :
  fetch_project_owners folder_policy "123" start = (Ok {["" := ["ann"]]}, start) ∧
  (∀ policy,
     policy ∈ items (search_all_iam_policies folder_policy ("organizations/" +:+ "123")) →
     Str.contains "/projects/" (resource policy) = false →
     ∃ key,
       before_first_slash (resource policy) key ∧
       ∀ b m, b ∈ bindings policy → role b = "roles/owner" →
              m ∈ members b → Str.startswith "user:" m = true →
              username m ∈ default [] (({["" := ["ann"]]} : gmap string (list string)) !! key)) ∧
  fetch_inactive_project_numbers folder_policy "123" start = (Ok ∅, start).
Proof.
  split; [by vm_compute|]. split; [|by vm_compute].
  apply (owners_of_other_resources folder_policy "123" start _ start).
  by vm_compute.
Defined.

(** *** The table *)

Lemma join_snoc sep l x :
  l ≠ [] → Str.join sep (l ++ [x]) = Str.join sep l +:+ sep +:+ x.
Proof.
  induction l as [|y l IH]; [done|]. intros _.
  destruct l as [|z l]; [done|].
  change (Str.join sep ((y :: z :: l) ++ [x]))
    with (y +:+ sep +:+ Str.join sep ((z :: l) ++ [x])).
  rewrite IH by done.
  change (Str.join sep (y :: z :: l)) with (y +:+ sep +:+ Str.join sep (z :: l)).
  by rewrite !StrFacts.app_assoc.
Qed.

(** The width of a column is the greatest length, in characters, among
    the header and the cells. *)
Lemma col_width_max ds h :
  Str.len h ≤ col_width ds h ∧
  (∀ d, d ∈ ds → Str.len (cell h d) ≤ col_width ds h) ∧
  (col_width ds h = Str.len h ∨ ∃ d, d ∈ ds ∧ col_width ds h = Str.len (cell h d)).
Proof.
  unfold col_width. set (lens := (λ d, Str.len (cell h d)) <$> ds).
  split; [lia|]. split.
  - intros d Hd. assert (Str.len (cell h d) ≤ max_list lens); [|lia].
    apply max_list_elem_of_le. unfold lens.
    by apply (list_elem_of_fmap_2 (λ d, Str.len (cell h d))).
  - destruct (Nat.max_spec (Str.len h) (max_list lens)) as [[Hlt ->]|[_ ->]];
      [|by left].
    right. assert (lens ≠ []) as Hne by (intros ->; simpl in Hlt; lia).
    apply max_list_elem_of, list_elem_of_fmap in Hne as (d & ? & ?). eauto.
Qed.

Lemma line_with_inactive ds content :
  line ds content (headers true) =
    line ds content (headers false) +:+ "  " +:+
    Str.ljust (content "inactive") (col_width ds "inactive").
Proof.
  unfold line, headers. rewrite app_nil_r, fmap_app. by apply join_snoc.
Qed.

(** C6.  On populated dicts, of which there is at least one, [print_report]
    writes the header, the dashes and a line for each dict in turn.  A line
    is its cells, each followed by spaces up to the width of its column,
    joined by two spaces; the width of a column is the greatest length, in
    characters, among its header and its cells, and that is the length of
    each of its padded cells, whatever bytes encode their characters.  With the flag, each line is the line without the flag, two
    spaces and the padded cell of the inactive column: the other columns,
    their widths and the order of the lines are the same. *)
Theorem column_widths w ps ds :
  at_locs w ps ds → Forall populated ds → ds ≠ [] →
  (∀ show,
     print_report ps show w = (Ok tt, World (heap w) (stdout w ++ table show ds)) ∧
     table show ds =
       line ds id (headers show) ::
       Str.times "-" (Str.len (line ds id (headers show))) ::
       ((λ d, line ds (λ h, cell h d) (headers show)) <$> ds)) ∧
  (∀ content cols,
     line ds content cols =
       Str.join "  "
         ((λ h, content h +:+ Str.times " " (col_width ds h - Str.len (content h)))
            <$> cols)) ∧
  (∀ h,
     Str.len h ≤ col_width ds h ∧
     (∀ d, d ∈ ds → Str.len (cell h d) ≤ col_width ds h) ∧
     (col_width ds h = Str.len h ∨
      ∃ d, d ∈ ds ∧ col_width ds h = Str.len (cell h d))) ∧
  (∀ h,
     Str.len (h +:+ Str.times " " (col_width ds h - Str.len h)) = col_width ds h ∧
     ∀ d, d ∈ ds →
       Str.len (cell h d +:+ Str.times " " (col_width ds h - Str.len (cell h d))) =
         col_width ds h) ∧
  headers true = headers false ++ ["inactive"] ∧
  (∀ content,
     line ds content (headers true) =
       line ds content (headers false) +:+ "  " +:+ content "inactive" +:+
       Str.times " " (col_width ds "inactive" - Str.len (content "inactive"))).
Proof.
  intros Hat Hpop Hne. split; [|split; [|split; [|split; [|split]]]].
  - intros show. split; [by apply print_report_run|done].
  - done.
  - intros h. apply col_width_max.
  - intros h. destruct (col_width_max ds h) as (Hh & Hd & _). split.
    + by apply (StrFacts.len_ljust_le h).
    + intros d Hin. apply (StrFacts.len_ljust_le (cell h d)). by apply Hd.
  - done.
  - intros content. by rewrite line_with_inactive.
Qed.

Lemma column_widths_witness :
  let w := World [Project "p1" "1" "P1" "2020-01-01" (Some ["alice"]) (Some false);
                  Project "p2" "2" "Zürich Büro Süd" "2021-06-15" (Some []) (Some true)] [] in
  let ds := heap w in
  at_locs w [1; 0] (reverse ds) ∧ Forall populated ds ∧ ds ≠ [] ∧
  print_report [1; 0] false w = (Ok tt, World ds (table false (reverse ds))) ∧
  print_report [1; 0] true w = (Ok tt, World ds (table true (reverse ds))) ∧
  col_width (reverse ds) "display_name" = 15 ∧
  col_width (reverse ds) "owners" = 6 ∧
  table false (reverse ds) =
    ["display_name     owners  create_date  project_id";
     "------------------------------------------------";
     "Zürich Büro Süd  -       2021-06-15   p2        ";
     "P1               alice   2020-01-01   p1        "].
Proof.
  intros w ds.
  assert (at_locs w [1; 0] (reverse ds)) as Hat by (by repeat constructor).
  assert (Forall populated (reverse ds)) as Hpop.
  { repeat constructor; by eexists. }
  assert (reverse ds ≠ []) as Hne by done.
  destruct (column_widths w [1; 0] (reverse ds) Hat Hpop Hne) as (Hrun & _).
  split; [done|]. split; [repeat constructor; by eexists|]. split; [done|].
  split; [apply (Hrun false)|]. split; [apply (Hrun true)|]. by vm_compute.
Defined.

(** *** The order of a set does not show *)

(** The owners cell forgets the order of the usernames. *)
Lemma owners_str_Permutation l1 l2 : l1 ≡ₚ l2 → owners_str l1 = owners_str l2.
Proof.
  intros Hl. unfold owners_str. destruct l1 as [|x l1], l2 as [|y l2]; [done|..].
  - by apply Permutation_nil_l in Hl.
  - by apply Permutation_nil_r in Hl.
  - f_equal. by apply sorted_unique.
Qed.

Lemma Forall2_fmap_eq {A B} (f g : A → B) l1 l2 :
  Forall2 (λ a b, f a = g b) l1 l2 → f <$> l1 = g <$> l2.
Proof. induction 1 as [|a b l1 l2 Hab _ IH]; [done|]. by rewrite !fmap_cons, Hab, IH. Qed.

(** The table depends on the dicts through their cells only. *)
Lemma table_ext show ds1 ds2 :
  Forall2 (λ a b, ∀ h, cell h a = cell h b) ds1 ds2 →
  table show ds1 = table show ds2.
Proof.
  intros Hds.
  assert (∀ h, col_width ds1 h = col_width ds2 h) as Hw.
  { intros h. unfold col_width. f_equal. f_equal.
    apply Forall2_fmap_eq. eapply Forall2_impl; [exact Hds|].
    intros a b Hab. simpl. by rewrite Hab. }
  assert (∀ content cols, line ds1 content cols = line ds2 content cols) as Hline.
  { intros content cols. unfold line. f_equal. apply list_fmap_ext.
    intros _ h _. by rewrite Hw. }
  unfold table. rewrite !Hline. do 2 f_equal.
  apply Forall2_fmap_eq. eapply Forall2_impl; [exact Hds|].
  intros a b Hab. simpl. rewrite Hline. unfold line. f_equal.
  apply list_fmap_ext. intros _ h _. by rewrite Hab.
Qed.

(** Whatever the order of [list(set(...))], the mapping gives each project
    the same owners cell. *)
Lemma cell_joined (O1 O2 : SetOrder) (m : gmap string (list string)) inactive d h :
  cell h (joined (@list_of_set O1 <$> m) inactive d) =
  cell h (joined (@list_of_set O2 <$> m) inactive d).
Proof.
  unfold cell. simpl. repeat case_decide; try done.
  apply owners_str_Permutation.
  destruct (@owners_dedup O1 m (project_id d)) as [Hnd1 Hel1].
  destruct (@owners_dedup O2 m (project_id d)) as [Hnd2 Hel2].
  apply NoDup_Permutation; [done..|]. intros u. by rewrite Hel1, Hel2.
Qed.

(** C7.  A run of [main] is a function of what the three fetches return:
    two runs on the same returns end alike and write the same text, also
    when [list(set(...))] lists the usernames in another order in the second
    run, since the owners cell forgets the order of the usernames. *)
Theorem report_deterministic (O1 O2 : SetOrder) api org_id show :
  (@main O1 api org_id show start).1 = (@main O2 api org_id show start).1 ∧
  stdout (@main O1 api org_id show start).2 =
    stdout (@main O2 api org_id show start).2 ∧
  (∀ l1 l2, l1 ≡ₚ l2 → owners_str l1 = owners_str l2).
Proof.
  assert (∀ (m : gmap string (list string)) ina ds,
    table show (sort_by key_ltb key_of (joined (@list_of_set O1 <$> m) ina <$> ds)) =
    table show (sort_by key_ltb key_of (joined (@list_of_set O2 <$> m) ina <$> ds)))
    as Htable.
  { intros m ina ds. rewrite !sort_by_fmap.
    rewrite (sort_by_ext key_ltb (key_of ∘ joined (@list_of_set O1 <$> m) ina)
               (key_of ∘ joined (@list_of_set O2 <$> m) ina)) by done.
    apply table_ext, Forall2_fmap, Forall_Forall2_diag, Forall_true.
    intros d h. apply cell_joined. }
  split; [|split; [|apply owners_str_Permutation]];
    rewrite !main_report; unfold report;
    destruct (fetch_projects api org_id start) as [[ps|e] w1]; try done;
    destruct (failure (search_all_iam_policies _ _)); try done;
    destruct (failure (list_recommendations _ _)); try done;
    cbv zeta; rewrite Htable; by destruct (heap w1).
Qed.

Lemma report_deterministic_witness :
  (@main first_seen three_projects "123" true start).1 =
    (@main last_seen three_projects "123" true start).1 ∧
  stdout (@main first_seen three_projects "123" true start).2 =
    stdout (@main last_seen three_projects "123" true start).2 ∧
  heap (@main first_seen three_projects "123" true start).2 ≠
    heap (@main last_seen three_projects "123" true start).2.
Proof.
  destruct (report_deterministic first_seen last_seen three_projects "123" true)
    as (Hout & Htext & _).
  split; [exact Hout|]. split; [exact Htext|]. by vm_compute.
Defined.

(** * Further properties of the program *)

(** ** [fetch_projects] *)

Lemma rcut_None_iff sep s : Str.rcut sep s = None ↔ Str.contains sep s = false.
Proof.
  split.
  - intros Hr. by apply StrFacts.contains_false, rcut_None.
  - intros Hc. destruct (Str.rcut sep s) as [[a b]|] eqn:Hr; [|done].
    apply rcut_Some in Hr. apply StrFacts.contains_false in Hc.
    by destruct (Hc a b).
Qed.

(** What a search result makes [fetch_projects] do: create a dict, when the
    name holds ["/projects/"], the parent reference a ["/"] and the time is
    there; raise the [ValueError] of an unpacking, when a separator is
    missing; raise the [AttributeError] of [.date()], when both are there
    and the time is not. *)
Lemma project_of_asset_cases r :
  match project_of_asset r with
  | Ok d =>
      Str.contains "/projects/" (asset_name r) = true ∧
      Str.contains "/" (asset_project r) = true ∧
      asset_create_time r = Some (create_date d)
  | Raise e =>
      (e = unpack_error ∧
       (Str.contains "/projects/" (asset_name r) = false ∨
        Str.contains "/" (asset_project r) = false)) ∨
      (e = date_error ∧
       Str.contains "/projects/" (asset_name r) = true ∧
       Str.contains "/" (asset_project r) = true ∧
       asset_create_time r = None)
  end.
Proof.
  unfold project_of_asset.
  destruct (Str.rcut "/projects/" _) as [[a1 b1]|] eqn:H1.
  - assert (Str.contains "/projects/" (asset_name r) = true) as Hc1.
    { apply StrFacts.contains_true. eexists _, _. by apply rcut_Some. }
    destruct (Str.rcut "/" _) as [[a2 b2]|] eqn:H2.
    + assert (Str.contains "/" (asset_project r) = true) as Hc2.
      { apply StrFacts.contains_true. eexists _, _. by apply rcut_Some. }
      destruct (asset_create_time r); [done|by right].
    + left. split; [done|]. right. by apply rcut_None_iff.
  - left. split; [done|]. left. by apply rcut_None_iff.
Qed.

Lemma project_of_asset_unpack r :
  project_of_asset r = Raise unpack_error ↔
    Str.contains "/projects/" (asset_name r) = false ∨
    Str.contains "/" (asset_project r) = false.
Proof.
  pose proof (project_of_asset_cases r) as Hr.
  destruct (project_of_asset r) as [d|e].
  - split; [done|]. destruct Hr as (? & ? & _). intros [|]; congruence.
  - destruct Hr as [[-> Hr]|(-> & ? & ? & _)]; [done|].
    split; [done|]. intros [|]; congruence.
Qed.

Lemma project_of_asset_date r :
  project_of_asset r = Raise date_error ↔
    Str.contains "/projects/" (asset_name r) = true ∧
    Str.contains "/" (asset_project r) = true ∧
    asset_create_time r = None.
Proof.
  pose proof (project_of_asset_cases r) as Hr.
  destruct (project_of_asset r) as [d|e].
  - split; [done|]. destruct Hr as (_ & _ & ?). intros (_ & _ & ?). congruence.
  - destruct Hr as [[-> Hr]|(-> & ? & ? & ?)]; [|done].
    split; [done|]. intros (? & ? & _). destruct Hr; congruence.
Qed.

Lemma project_of_asset_Ok r :
  (∃ d, project_of_asset r = Ok d) ↔
    Str.contains "/projects/" (asset_name r) = true ∧
    Str.contains "/" (asset_project r) = true ∧
    is_Some (asset_create_time r).
Proof.
  pose proof (project_of_asset_cases r) as Hr.
  destruct (project_of_asset r) as [d|e].
  - destruct Hr as (? & ? & ?). split; [by intros _|by eexists].
  - split; [by intros [d ?]|]. intros (? & ? & [t ?]).
    destruct Hr as [[_ [|]]|(_ & _ & _ & ?)]; congruence.
Qed.

(** What [fetch_projects] comes to, whatever the search returns. *)
Lemma fetch_projects_parse api org_id w :
  let response := search_all_resources api ("organizations/" +:+ org_id) in
  fetch_projects api org_id w =
    (match (parse_assets (items response)).2 with
     | Some e => Raise e
     | None =>
         match failure response with
         | Some e => Raise e
         | None => Ok (seq (length (heap w)) (length (parse_assets (items response)).1))
         end
     end,
     World (heap w ++ (parse_assets (items response)).1) (stdout w)).
Proof.
  intros response. unfold fetch_projects, for_paged. fold response.
  set (body := λ (projects : list loc) (r : asset), _).
  assert (∀ acc r w,
    body acc r w =
      match project_of_asset r with
      | Ok d => (Ok (acc ++ [length (heap w)]), World (heap w ++ [d]) (stdout w))
      | Raise e => (Raise e, w)
      end) as Hbody.
  { intros acc r w0. unfold body, project_of_asset, Str.rsplit1.
    destruct (Str.rcut "/projects/" (asset_name r)) as [[a1 b1]|]; [|done].
    erewrite bind_ok by reflexivity.
    destruct (Str.rcut "/" (asset_project r)) as [[a2 b2]|]; [|done].
    erewrite bind_ok by reflexivity.
    destruct (asset_create_time r) as [date|]; [|done].
    by erewrite bind_ok by reflexivity. }
  assert (∀ l acc w,
    for_in l body acc w =
      (match (parse_assets l).2 with
       | Some e => Raise e
       | None => Ok (acc ++ seq (length (heap w)) (length (parse_assets l).1))
       end,
       World (heap w ++ (parse_assets l).1) (stdout w))) as Hloop.
  { clear w. induction l as [|r l IH]; intros acc w; simpl.
    { rewrite !app_nil_r. by destruct w. }
    unfold bind. rewrite Hbody.
    destruct (project_of_asset r) as [d|e]; simpl.
    - rewrite IH. simpl. rewrite length_app, Nat.add_1_r, <-!app_assoc. done.
    - rewrite app_nil_r. by destruct w. }
  unfold bind. rewrite Hloop. simpl.
  destruct (parse_assets (items response)).2; [done|].
  by destruct (failure response).
Qed.

(** The exception of the first result that raises one is the exception of
    the loop. *)
Lemma parse_assets_raise before r after e :
  Forall (λ r', ∀ e', project_of_asset r' = Raise e' → e' = e) before →
  project_of_asset r = Raise e →
  (parse_assets (before ++ r :: after)).2 = Some e.
Proof.
  intros Hbefore Hr. induction Hbefore as [|r' before Hr' _ IH]; simpl.
  - by rewrite Hr.
  - destruct (project_of_asset r') as [d|e'] eqn:He'; simpl; [done|].
    by rewrite (Hr' e' eq_refl).
Qed.

Lemma parse_assets_good l :
  (parse_assets l).2 = None →
  Forall2 (λ r d, project_of_asset r = Ok d) l (parse_assets l).1.
Proof.
  induction l as [|r l IH]; simpl; [constructor|].
  destruct (project_of_asset r) as [d|e] eqn:Hr; simpl; [|done].
  intros Hok. constructor; auto.
Qed.

Lemma parse_assets_Forall2 l ds :
  Forall2 (λ r d, project_of_asset r = Ok d) l ds → parse_assets l = (ds, None).
Proof.
  induction 1 as [|r d l ds Hr _ IH]; simpl; [done|]. by rewrite Hr, IH.
Qed.

(** A search result whose name holds no ["/projects/"], or whose parent
    reference holds no ["/"], makes [fetch_projects] raise the [ValueError]
    of the unpacking, whatever comes after it, unless a result before it
    has both separators and no time; [main] then ends with that exception
    and writes nothing. *)
Theorem fetch_projects_malformed `{SetOrder} api org_id show before r after :
  items (search_all_resources api ("organizations/" +:+ org_id)) =
    before ++ r :: after →
  Forall (λ r', Str.contains "/projects/" (asset_name r') = true →
                Str.contains "/" (asset_project r') = true →
                is_Some (asset_create_time r')) before →
  Str.contains "/projects/" (asset_name r) = false ∨
    Str.contains "/" (asset_project r) = false →
  (∀ w, (fetch_projects api org_id w).1 =
          Raise (ValueError "not enough values to unpack (expected 2, got 1)") ∧
        stdout (fetch_projects api org_id w).2 = stdout w) ∧
  (main api org_id show start).1 =
    Raise (ValueError "not enough values to unpack (expected 2, got 1)") ∧
  stdout (main api org_id show start).2 = [].
Proof.
  intros Hitems Hbefore Hbad.
  assert ((parse_assets (items (search_all_resources api
            ("organizations/" +:+ org_id)))).2 = Some unpack_error) as Hparse.
  { rewrite Hitems. apply parse_assets_raise; [|by apply project_of_asset_unpack].
    eapply Forall_impl; [exact Hbefore|]. intros r' Hr' e' He'.
    pose proof (project_of_asset_cases r') as Hc. rewrite He' in Hc.
    destruct Hc as [[-> _]|(_ & H1 & H2 & Ht)]; [done|].
    destruct (Hr' H1 H2) as [t Hsome]. congruence. }
  assert (∀ w, (fetch_projects api org_id w).1 =
          Raise (ValueError "not enough values to unpack (expected 2, got 1)") ∧
        stdout (fetch_projects api org_id w).2 = stdout w) as Hfetch.
  { intros w. rewrite fetch_projects_parse. cbv zeta. by rewrite Hparse. }
  split; [exact Hfetch|].
  rewrite main_report. unfold report.
  destruct (Hfetch start) as [H1 H2].
  destruct (fetch_projects api org_id start) as [[ps|e] w1]; simpl in *; [done|].
  by injection H1 as ->.
Qed.

Lemma fetch_projects_malformed_witness :
  let api := Cloud
    (λ _, Paged [Asset "//crm/projects/p1" "projects/1" "P1" (Some "2020-01-01");
                 Asset "//crm/folders/7" "projects/2" "F7" (Some "2021-06-15");
                 Asset "//crm/projects/p3" "projects/3" "P3" None] None)
    (λ _, Paged [] None) (λ _, Paged [] None) in
  Str.contains "/projects/" "//crm/folders/7" = false ∧
  (main api "123" true start).1 =
    Raise (ValueError "not enough values to unpack (expected 2, got 1)") ∧
  stdout (main api "123" true start).2 = [].
Proof.
  intros api. split; [done|].
  refine (proj2 (fetch_projects_malformed api "123" true
            [Asset "//crm/projects/p1" "projects/1" "P1" (Some "2020-01-01")]
            (Asset "//crm/folders/7" "projects/2" "F7" (Some "2021-06-15"))
            [Asset "//crm/projects/p3" "projects/3" "P3" None] _ _ _)).
  - reflexivity.
  - repeat constructor. by eexists.
  - by left.
Defined.

(** A search result that has both separators and no time makes
    [fetch_projects] raise the [AttributeError] of [.date()] on [None],
    whatever comes after it, when the results before it have both
    separators; [main] then ends with that exception and writes nothing. *)
Theorem fetch_projects_dateless `{SetOrder} api org_id show before r after :
  items (search_all_resources api ("organizations/" +:+ org_id)) =
    before ++ r :: after →
  Forall (λ r', Str.contains "/projects/" (asset_name r') = true ∧
                Str.contains "/" (asset_project r') = true) before →
  Str.contains "/projects/" (asset_name r) = true →
  Str.contains "/" (asset_project r) = true →
  asset_create_time r = None →
  (∀ w, (fetch_projects api org_id w).1 =
          Raise (AttributeError "'NoneType' object has no attribute 'date'") ∧
        stdout (fetch_projects api org_id w).2 = stdout w) ∧
  (main api org_id show start).1 =
    Raise (AttributeError "'NoneType' object has no attribute 'date'") ∧
  stdout (main api org_id show start).2 = [].
Proof.
  intros Hitems Hbefore Hname Hproject Htime.
  assert ((parse_assets (items (search_all_resources api
            ("organizations/" +:+ org_id)))).2 = Some date_error) as Hparse.
  { rewrite Hitems. apply parse_assets_raise; [|by apply project_of_asset_date].
    eapply Forall_impl; [exact Hbefore|]. intros r' [H1 H2] e' He'.
    pose proof (project_of_asset_cases r') as Hc. rewrite He' in Hc.
    destruct Hc as [[_ [|]]|[-> _]]; congruence. }
  assert (∀ w, (fetch_projects api org_id w).1 =
          Raise (AttributeError "'NoneType' object has no attribute 'date'") ∧
        stdout (fetch_projects api org_id w).2 = stdout w) as Hfetch.
  { intros w. rewrite fetch_projects_parse. cbv zeta. by rewrite Hparse. }
  split; [exact Hfetch|].
  rewrite main_report. unfold report.
  destruct (Hfetch start) as [H1 H2].
  destruct (fetch_projects api org_id start) as [[ps|e] w1]; simpl in *; [done|].
  by injection H1 as ->.
Qed.

Lemma fetch_projects_dateless_witness :
  let api := Cloud
    (λ _, Paged [Asset "//crm/projects/p1" "projects/1" "P1" (Some "2020-01-01");
                 Asset "//crm/projects/p2" "projects/2" "P2" None;
                 Asset "//crm/folders/7" "projects/3" "F7" (Some "2021-06-15")] None)
    (λ _, Paged [] None) (λ _, Paged [] None) in
  (main api "123" true start).1 =
    Raise (AttributeError "'NoneType' object has no attribute 'date'") ∧
  stdout (main api "123" true start).2 = [] ∧
  heap (fetch_projects api "123" start).2 =
    [Project "p1" "1" "P1" "2020-01-01" None None].
Proof.
  intros api.
  assert (∀ A B C : Prop, A ∧ B → C → A ∧ B ∧ C) as Hand by tauto.
  apply Hand; [|by vm_compute].
  refine (proj2 (fetch_projects_dateless api "123" true
            [Asset "//crm/projects/p1" "projects/1" "P1" (Some "2020-01-01")]
            (Asset "//crm/projects/p2" "projects/2" "P2" None)
            [Asset "//crm/folders/7" "projects/3" "F7" (Some "2021-06-15")] _ _ _ _ _)).
  - reflexivity.
  - by repeat constructor.
  - reflexivity.
  - reflexivity.
  - reflexivity.
Defined.



(** Names and parent references made of a prefix, the separator and an
    identifier without ["/"] are read back: [fetch_projects] creates the dicts
    with these identifiers, and returns references to them in this order. *)
Theorem fetch_projects_reads_back api org_id w ds :
  let response := search_all_resources api ("organizations/" +:+ org_id) in
  failure response = None →
  Forall2 (λ r d,
    (∃ pre, asset_name r = pre +:+ "/projects/" +:+ project_id d) ∧
    (∀ a b, project_id d ≠ a +:+ "/" +:+ b) ∧
    (∃ pre, asset_project r = pre +:+ "/" +:+ project_number d) ∧
    (∀ a b, project_number d ≠ a +:+ "/" +:+ b) ∧
    display_name d = asset_display_name r ∧
    asset_create_time r = Some (create_date d) ∧
    owners d = None ∧ inactive d = None) (items response) ds →
  fetch_projects api org_id w =
    (Ok (seq (length (heap w)) (length ds)), World (heap w ++ ds) (stdout w)).
Proof.
  intros response Hfail Hds. rewrite fetch_projects_parse. fold response.
  rewrite (parse_assets_Forall2 (items response) ds); [by rewrite Hfail|].
  eapply Forall2_impl; [exact Hds|].
  intros r [id num dn cd os ina]. simpl.
  intros ([pre1 H1] & Hid & [pre2 H2] & Hnum & -> & Hcd & -> & ->).
  unfold project_of_asset. rewrite H1, H2, Hcd.
  pose proof (rcut_app "/projects" "/" pre1 id Hid) as Hr1.
  pose proof (rcut_app "" "/" pre2 num Hnum) as Hr2.
  change ("/projects" +:+ String "/"%char "") with "/projects/" in Hr1.
  change ("" +:+ String "/"%char "") with "/" in Hr2.
  by rewrite Hr1, Hr2.
Qed.

Lemma fetch_projects_reads_back_witness :
  failure (search_all_resources nested_path ("organizations/" +:+ "123")) = None ∧
  fetch_projects nested_path "123" start =
    (Ok [0], World [Project "p1" "111" "P1" "2020-01-01" None None] []).
Proof.
  split; [done|].
  apply (fetch_projects_reads_back nested_path "123" start
           [Project "p1" "111" "P1" "2020-01-01" None None]); [done|].
  constructor; [|constructor]. simpl.
  split; [by exists "//crm"|]. split; [apply StrFacts.cut_None; by vm_compute|].
  split; [by exists "projects"|]. split; [apply StrFacts.cut_None; by vm_compute|].
  done.
Defined.

(** ** Resource paths and members *)

(** The number of a project is read from a path that holds ["/projects/"]
    once: when an operation has the path of a prefix, ["/projects/"], a number
    without ["/"] and nothing more or a ["/"] and more, the number is in the
    set [fetch_inactive_project_numbers] returns. *)
Theorem inactive_reads_number api org_id w flags w' rec group op pre n rest :
  fetch_inactive_project_numbers api org_id w = (Ok flags, w') →
  rec ∈ items (list_recommendations api
    ("organizations/" +:+ org_id +:+
     "/locations/global/recommenders/google.resourcemanager.projectUtilization.Recommender")) →
  group ∈ operation_groups rec → op ∈ operations group →
  op_resource op = pre +:+ "/projects/" +:+ n +:+ rest →
  (∀ a b, op_resource op = a +:+ "/projects/" +:+ b → a = pre) →
  (∀ a b, n ≠ a +:+ "/" +:+ b) →
  (rest = "" ∨ ∃ r, rest = "/" +:+ r) →
  path_project (op_resource op) = n ∧ n ∈ flags.
Proof.
  intros Hrun Hrec Hgroup Hop Hpath Honce Hn Hrest.
  assert (path_project (op_resource op) = n) as Hproj.
  { rewrite Hpath in *. by apply path_project_once. }
  split; [done|].
  rewrite fetch_inactive_project_numbers_run in Hrun. cbv zeta in Hrun.
  destruct (failure _); [done|]. injection Hrun as <- <-.
  apply accumulate_inactive_elem. exists rec, group, op.
  split; [done|]. split; [done|]. split; [done|]. split; [|done].
  apply StrFacts.contains_true. rewrite Hpath. by eexists _, _.
Qed.

Lemma inactive_reads_number_witness :
  fetch_inactive_project_numbers three_projects "123" start = (Ok {["2"]}, start) ∧
  path_project "//crm/projects/2" = "2" ∧ "2" ∈ ({["2"]} : gset string).
Proof.
  split; [by vm_compute|].
  apply (inactive_reads_number three_projects "123" start {["2"]} start
           (Recommendation [OperationGroup [Operation "//crm/projects/2"]])
           (OperationGroup [Operation "//crm/projects/2"])
           (Operation "//crm/projects/2") "//crm" "2" "").
  - by vm_compute.
  - by left.
  - by left.
  - by left.
  - done.
  - simpl. intros a b Hab.
    assert (Str.cut "/projects/" "//crm/projects/2" = Some ("//crm", "2")) as Hc
      by by vm_compute.
    pose proof (StrFacts.cut_leftmost _ _ _ _ a b Hc Hab) as Hle.
    change "//crm/projects/2" with ("//crm" +:+ "/projects/2") in Hab.
    destruct (str_app_split _ _ _ _ Hab Hle) as (z & -> & Hz).
    pose proof (f_equal Str.size Hz) as Hlen.
    rewrite !StrFacts.size_app in Hlen. unfold Str.size in Hlen. simpl in Hlen.
    destruct z as [|c [|c' z]]; simpl in Hlen; [by rewrite StrFacts.app_nil_r| |lia].
    by injection Hz.
  - apply StrFacts.cut_None. by vm_compute.
  - by left.
Defined.

(** The username of a member ["user:"] and an address holds no ["@"]: it is
    the address up to its first ["@"], all of it when it holds none. *)
Theorem username_before_at email :
  (∀ a b, username ("user:" +:+ email) ≠ a +:+ "@" +:+ b) ∧
  (email = username ("user:" +:+ email) ∨
   ∃ domain, email = username ("user:" +:+ email) +:+ "@" +:+ domain).
Proof.
  unfold username. rewrite StrFacts.removeprefix_app.
  rewrite StrFacts.first_split by done.
  destruct (Str.cut "@" email) as [[a b]|] eqn:Hc.
  - split; [intros x y; by eapply (StrFacts.cut_char_before "@")|].
    right. exists b. by apply StrFacts.cut_Some.
  - split; [intros x y; by apply StrFacts.cut_None|by left].
Qed.

(** ** Dicts that the join has not completed *)

(** [print_report] raises [KeyError] at the first dict without ["owners"],
    before it has printed the header; the heap and the output stay as they
    were. *)
Theorem print_report_unjoined show w ps ds1 d ds2 :
  at_locs w ps (ds1 ++ d :: ds2) → Forall populated ds1 → owners d = None →
  print_report ps show w = (Raise (KeyError "owners"), w).
Proof.
  intros Hat Hpop Hd. unfold print_report.
  match goal with |- bind (for_in ps ?body []) _ _ = _ =>
    assert (∀ ps ds1 acc, at_locs w ps (ds1 ++ d :: ds2) → Forall populated ds1 →
      for_in ps body acc w = (Raise (KeyError "owners"), w)) as Hrows
  end.
  { clear ps ds1 Hat Hpop. intros ps ds1. revert ps.
    induction ds1 as [|d1 ds1 IH]; intros ps acc Hat Hpop;
      apply Forall2_cons_inv_r in Hat as (p & ps' & Hp & Hat & ->); simpl.
    - apply bind_raise, bind_raise.
      unfold getitem_owners, bind, load. by rewrite Hp, Hd.
    - apply Forall_cons in Hpop as [[[os Hos] [i Hi]] Hpop].
      erewrite bind_ok; cycle 1.
      { erewrite bind_ok by by eapply getitem_owners_run.
        do 3 (erewrite bind_ok by by eapply getitem_run).
        match goal with |- bind (if show then ?a else ?b) _ _ = _ =>
          assert ((if show then a else b) w = (Ok (row_of show d1), w)) as Hrow
        end.
        { unfold row_of. rewrite Hos, Hi. destruct show; [|done].
          by erewrite bind_ok by by eapply getitem_inactive_run. }
        erewrite bind_ok by apply Hrow. reflexivity. }
      by apply IH. }
  apply bind_raise. by apply (Hrows ps ds1).
Qed.

Lemma print_report_unjoined_witness :
  let w := World [Project "p1" "1" "P1" "2020-01-01" (Some ["alice"]) (Some false);
                  Project "p2" "2" "P2" "2021-06-15" None None] [] in
  at_locs w [0; 1] (heap w) ∧
  print_report [0; 1] true w = (Raise (KeyError "owners"), w).
Proof.
  intros w. assert (at_locs w [0; 1] (heap w)) as Hat by (by repeat constructor).
  split; [exact Hat|].
  apply (print_report_unjoined true w [0; 1] [_] _ [] Hat); [|done].
  repeat constructor; by eexists.
Defined.

(** The sort of [main] raises [KeyError] at the first dict without
    ["inactive"] and leaves the heap and the output as they were. *)
Theorem list_sort_unjoined w ps ds1 d ds2 :
  at_locs w ps (ds1 ++ d :: ds2) → Forall populated ds1 → inactive d = None →
  list_sort key_ltb sort_key ps w = (Raise (KeyError "inactive"), w).
Proof.
  intros Hat Hpop Hd. unfold list_sort. apply bind_raise.
  revert ps Hat Hpop.
  induction ds1 as [|d1 ds1 IH]; intros ps Hat Hpop;
    apply Forall2_cons_inv_r in Hat as (p & ps' & Hp & Hat & ->); simpl.
  - apply bind_raise. unfold sort_key. apply bind_raise.
    unfold getitem_inactive, bind, load. by rewrite Hp, Hd.
  - apply Forall_cons in Hpop as [[_ Hi] Hpop].
    erewrite bind_ok by by eapply sort_key_run.
    apply bind_raise. by apply IH.
Qed.

Lemma list_sort_unjoined_witness :
  let w := (fetch_projects three_projects "123" start).2 in
  at_locs w [0; 1; 2] (heap w) ∧
  list_sort key_ltb sort_key [0; 1; 2] w = (Raise (KeyError "inactive"), w).
Proof.
  intros w. assert (at_locs w [0; 1; 2] (heap w)) as Hat by (by repeat constructor).
  split; [exact Hat|].
  by apply (list_sort_unjoined w [0; 1; 2] [] _ [_; _] Hat).
Defined.

(** ** How [main] can end *)

Lemma parse_assets_nil l : parse_assets l = ([], None) → l = [].
Proof.
  destruct l as [|r l]; [done|]. simpl. by destruct (project_of_asset r).
Qed.

Lemma parse_assets_ok_iff l :
  (parse_assets l).2 = None ↔
    Forall (λ r, Str.contains "/projects/" (asset_name r) = true ∧
                 Str.contains "/" (asset_project r) = true ∧
                 is_Some (asset_create_time r)) l.
Proof.
  induction l as [|r l IH]; simpl; [by split; [constructor|]|].
  rewrite Forall_cons, <-IH, <-project_of_asset_Ok.
  destruct (project_of_asset r) as [d|e]; simpl.
  - split; [by eauto|by intros [_ ?]].
  - split; [done|]. by intros [[d ?] _].
Qed.

Lemma parse_assets_raise_inv l e :
  (parse_assets l).2 = Some e → Exists (λ r, project_of_asset r = Raise e) l.
Proof.
  induction l as [|r l IH]; simpl; [done|].
  destruct (project_of_asset r) as [d|e'] eqn:Hr; simpl.
  - intros Hl. by apply Exists_cons_tl, IH.
  - intros [= ->]. by apply Exists_cons_hd.
Qed.

(** [main] ends well if and only if the three services answer without an
    exception, every search result has a name with ["/projects/"], a
    parent reference with ["/"] and a time, and there is at least one
    result. *)
Theorem main_ends_well_iff `{SetOrder} api org_id show :
  (main api org_id show start).1 = Ok tt ↔
    failure (search_all_resources api ("organizations/" +:+ org_id)) = None ∧
    failure (search_all_iam_policies api ("organizations/" +:+ org_id)) = None ∧
    failure (list_recommendations api
      ("organizations/" +:+ org_id +:+
       "/locations/global/recommenders/google.resourcemanager.projectUtilization.Recommender")) = None ∧
    Forall (λ r, Str.contains "/projects/" (asset_name r) = true ∧
                 Str.contains "/" (asset_project r) = true ∧
                 is_Some (asset_create_time r))
      (items (search_all_resources api ("organizations/" +:+ org_id))) ∧
    items (search_all_resources api ("organizations/" +:+ org_id)) ≠ [].
Proof.
  split.
  - rewrite main_report. unfold report. rewrite fetch_projects_parse. cbv zeta.
    rewrite <-parse_assets_ok_iff.
    destruct (parse_assets _) as [ds err] eqn:Hparse. simpl.
    destruct err; [done|].
    destruct (failure (search_all_resources _ _)); [done|].
    destruct (failure (search_all_iam_policies _ _)); [done|].
    destruct (failure (list_recommendations _ _)); [done|].
    destruct ds as [|d ds]; [done|]. intros _.
    repeat split; try done. intros Hnil. by rewrite Hnil in Hparse.
  - intros (H1 & H2 & H3 & Hitems & Hne). by apply main_ends_well.
Qed.

(** When [main] does not end well, it ends with the exception of one of the
    three services, or with the [ValueError] of an unpacking in
    [fetch_projects] on a result of the wrong shape, or with the
    [AttributeError] of [.date()] on a result of the right shape without
    a time, or with the [ValueError] of [max] in [print_report] when the
    search has returned no project; and it has written nothing. *)
Theorem main_exceptions `{SetOrder} api org_id show e :
  (main api org_id show start).1 = Raise e →
  let resources := search_all_resources api ("organizations/" +:+ org_id) in
  (failure resources = Some e ∨
   failure (search_all_iam_policies api ("organizations/" +:+ org_id)) = Some e ∨
   failure (list_recommendations api
     ("organizations/" +:+ org_id +:+
      "/locations/global/recommenders/google.resourcemanager.projectUtilization.Recommender")) = Some e ∨
   (e = ValueError "not enough values to unpack (expected 2, got 1)" ∧
    Exists (λ r, Str.contains "/projects/" (asset_name r) = false ∨
                 Str.contains "/" (asset_project r) = false) (items resources)) ∨
   (e = AttributeError "'NoneType' object has no attribute 'date'" ∧
    Exists (λ r, Str.contains "/projects/" (asset_name r) = true ∧
                 Str.contains "/" (asset_project r) = true ∧
                 asset_create_time r = None) (items resources)) ∨
   (e = ValueError "max() iterable argument is empty" ∧ items resources = [])) ∧
  stdout (main api org_id show start).2 = [].
Proof.
  rewrite main_report. unfold report. rewrite fetch_projects_parse. cbv zeta.
  destruct (parse_assets _) as [ds err] eqn:Hparse. simpl in *.
  destruct err as [e0|].
  - intros [= <-]. split; [|done].
    assert (Exists (λ r, project_of_asset r = Raise e0)
              (items (search_all_resources api ("organizations/" +:+ org_id))))
      as Hex by (apply parse_assets_raise_inv; by rewrite Hparse).
    apply Exists_exists in Hex as (r & Hin & Hr).
    pose proof (project_of_asset_cases r) as Hc. rewrite Hr in Hc.
    destruct Hc as [[-> Hc]|[-> Hc]].
    + do 3 right. left. split; [done|]. apply Exists_exists. eauto.
    + do 4 right. left. split; [done|]. apply Exists_exists. eauto.
  - destruct (failure (search_all_resources _ _)) as [e1|].
    { intros [= <-]. split; [by left|done]. }
    destruct (failure (search_all_iam_policies _ _)) as [e2|].
    { intros [= <-]. split; [by right; left|done]. }
    destruct (failure (list_recommendations _ _)) as [e3|].
    { intros [= <-]. split; [by right; right; left|done]. }
    destruct ds as [|d ds]; [|done]. simpl. intros [= <-].
    split; [|done]. do 5 right. split; [done|]. by apply parse_assets_nil.
Qed.

Lemma main_exceptions_witness :
  (main policies_refused "123" true start).1 =
    Raise (ClientError "403 permission denied") ∧
  stdout (main policies_refused "123" true start).2 = [].
Proof.
  split; [by vm_compute|].
  exact (proj2 (main_exceptions policies_refused "123" true
                  (ClientError "403 permission denied") ltac:(by vm_compute))).
Defined.

(** ** The rows of the report *)

(** After a run that ends well the heap holds one dict for each search
    result, in the order of the results. *)
Lemma main_ok_heap `{SetOrder} api org_id show w :
  main api org_id show start = (Ok tt, w) →
  Forall2 (λ r d, display_name d = asset_display_name r ∧
                  asset_create_time r = Some (create_date d) ∧ populated d)
    (items (search_all_resources api ("organizations/" +:+ org_id))) (heap w) ∧
  stdout w = table show (sort_by key_ltb key_of (heap w)).
Proof.
  rewrite main_report. unfold report. rewrite fetch_projects_parse. cbv zeta.
  destruct (parse_assets _).2 eqn:Hok; [done|].
  destruct (failure (search_all_resources _ _)); [done|].
  destruct (failure (search_all_iam_policies _ _)); [done|].
  destruct (failure (list_recommendations _ _)); [done|].
  cbn [heap]. rewrite app_nil_l.
  destruct (joined _ _ <$> _) as [|j js] eqn:Hjs; [done|].
  intros [= <-]. cbn [heap stdout]. split; [|done]. rewrite <-Hjs.
  apply Forall2_fmap_r. eapply Forall2_impl; [by apply parse_assets_good|].
  intros r d. unfold project_of_asset.
  destruct (Str.rcut "/projects/" _) as [[]|]; [|done].
  destruct (Str.rcut "/" _) as [[]|]; [|done].
  destruct (asset_create_time r) as [date|]; [|done].
  intros [= <-]. simpl. split; [done|]. split; [done|]. apply joined_populated.
Qed.

Lemma filter_ext_elem {A} (P Q : A → Prop) `{∀ x, Decision (P x)} `{∀ x, Decision (Q x)}
    (l : list A) :
  (∀ x, x ∈ l → (P x ↔ Q x)) → filter P l = filter Q l.
Proof.
  induction l as [|x l IH]; intros HPQ; [done|].
  rewrite !filter_cons, IH by (intros; apply HPQ; by right).
  destruct (decide (P x)) as [HP|HP], (decide (Q x)) as [HQ|HQ]; try done.
  - destruct HQ. by apply (HPQ x); [left|].
  - destruct HP. by apply (HPQ x); [left|].
Qed.

(** The table has the header, the dashes and one line for each search
    result; the projects that are alike in activity and in date come in the
    order in which the search returned them. *)
Theorem report_rows_stable `{SetOrder} api org_id show w :
  main api org_id show start = (Ok tt, w) →
  let resources := items (search_all_resources api ("organizations/" +:+ org_id)) in
  length (stdout w) = 2 + length resources ∧
  Forall2 (λ r d, display_name d = asset_display_name r ∧
                  asset_create_time r = Some (create_date d)) resources (heap w) ∧
  ∃ ds, ds ≡ₚ heap w ∧ stdout w = table show ds ∧
        ∀ i date,
          filter (λ d, inactive d = Some i ∧ create_date d = date) ds =
          filter (λ d, inactive d = Some i ∧ create_date d = date) (heap w).
Proof.
  intros Hrun resources. destruct (main_ok_heap _ _ _ _ Hrun) as [Hheap Hout].
  fold resources in Hheap. split; [|split].
  - rewrite Hout. unfold table. simpl.
    rewrite length_fmap, sort_by_length. f_equal. f_equal.
    symmetry. by eapply Forall2_length.
  - eapply Forall2_impl; [exact Hheap|]. by intros r d (? & ? & _).
  - exists (sort_by key_ltb key_of (heap w)).
    split; [apply sort_by_Permutation|]. split; [done|]. intros i date.
    assert (∀ d, d ∈ heap w → populated d) as Hpop.
    { intros d Hd. apply list_elem_of_lookup in Hd as [k Hd].
      destruct (Forall2_lookup_r _ _ _ _ _ Hheap Hd) as (r & _ & _ & _ & ?). done. }
    assert (∀ l : list project, (∀ d, d ∈ l → populated d) →
      filter (λ d, inactive d = Some i ∧ create_date d = date) l =
      filter (λ d, key_of d = (negb i, date)) l) as Hkey.
    { intros l Hl. apply filter_ext_elem. intros d [_ [j Hj]]%Hl.
      unfold key_of. rewrite Hj. simpl. split.
      - by intros [[= ->] ->].
      - intros [= Hij ->]. split; [|done]. f_equal. by destruct i, j. }
    rewrite !Hkey; [|done|].
    + apply sort_by_stable. intros [b s]. unfold key_ltb. simpl.
      rewrite decide_True by done. apply ltb_irrefl.
    + intros d Hd. apply Hpop. by rewrite <-(sort_by_Permutation key_ltb key_of).
Qed.

Lemma report_rows_stable_witness :
  main three_projects "123" true start =
    (Ok tt, (main three_projects "123" true start).2) ∧
  length (stdout (main three_projects "123" true start).2) = 2 + 3.
Proof.
  split; [by vm_compute|].
  exact (proj1 (report_rows_stable three_projects "123" true _ ltac:(by vm_compute))).
Defined.

Lemma len_join sep l :
  Str.len (Str.join sep l) =
    sum_list (Str.len <$> l) + Str.len sep * (length l - 1).
Proof.
  induction l as [|x l IH].
  { change (Str.len (Str.join sep [])) with 0. simpl. lia. }
  destruct l as [|y l].
  { simpl. lia. }
  change (Str.join sep (x :: y :: l)) with (x +:+ sep +:+ Str.join sep (y :: l)).
  rewrite !StrFacts.len_app, IH. simpl. lia.
Qed.

(** The lines [print_report] writes are all of one length in characters:
    the sum of the widths of the columns and two for each gap between
    them. *)
Theorem table_aligned show w ps ds :
  at_locs w ps ds → Forall populated ds → ds ≠ [] →
  ∃ lines,
    print_report ps show w = (Ok tt, World (heap w) (stdout w ++ lines)) ∧
    length lines = 2 + length ps ∧
    Forall (λ l, Str.len l =
                   sum_list (col_width ds <$> headers show) +
                   2 * (length (headers show) - 1)) lines.
Proof.
  intros Hat Hpop Hne. exists (table show ds).
  split; [by apply print_report_run|]. split.
  { unfold table. simpl. rewrite length_fmap. f_equal. f_equal.
    symmetry. by eapply Forall2_length. }
  assert (∀ content,
    (∀ h, Str.len (content h) ≤ col_width ds h) →
    Str.len (line ds content (headers show)) =
      sum_list (col_width ds <$> headers show) + 2 * (length (headers show) - 1))
    as Hline.
  { intros content Hc. unfold line. rewrite len_join, length_fmap.
    f_equal. f_equal. rewrite <-list_fmap_compose. apply list_fmap_ext.
    intros _ h _. simpl. by apply StrFacts.len_ljust_le. }
  unfold table. repeat apply Forall_cons_2.
  - apply Hline. intros h. apply col_width_max.
  - rewrite StrFacts.len_times by done. apply Hline. intros h. apply col_width_max.
  - apply Forall_fmap, Forall_forall. intros d Hd. simpl. apply Hline.
    intros h. by apply col_width_max.
Qed.

Lemma table_aligned_witness :
  let w := World [Project "p1" "1" "P1" "2020-01-01" (Some ["alice"]) (Some false);
                  Project "p2" "2" "Büro Zürich" "2021-06-15" (Some []) (Some true)] [] in
  at_locs w [1; 0] (reverse (heap w)) ∧
  ∃ lines,
    print_report [1; 0] true w = (Ok tt, World (heap w) lines) ∧
    length lines = 4 ∧
    Forall (λ l, Str.len l = 55) lines.
Proof.
  intros w.
  assert (at_locs w [1; 0] (reverse (heap w))) as Hat by (by repeat constructor).
  split; [exact Hat|].
  destruct (table_aligned true w [1; 0] (reverse (heap w)) Hat) as (lines & ? & ? & ?).
  - repeat constructor; by eexists.
  - done.
  - exists lines. split; [done|]. split; [done|].
    eapply Forall_impl; [eassumption|]. intros l ->. by vm_compute.
Defined.

(** ** The mapping, the set and the join *)

Lemma add_binding_key pid (owners : gmap string (list string)) b k :
  is_Some (add_binding pid owners b !! k) ↔
    is_Some (owners !! k) ∨ (k = pid ∧ role b = "roles/owner").
Proof.
  unfold add_binding, setdefault_extend. case_decide as Hrole; [|tauto].
  destruct (decide (k = pid)) as [->|Hne].
  - rewrite lookup_insert_eq. split; [by right|by eexists].
  - rewrite lookup_insert_ne by done. tauto.
Qed.

Lemma accumulate_owners_key policies k :
  is_Some (accumulate_owners policies !! k) ↔
    ∃ policy b, policy ∈ policies ∧ path_project (resource policy) = k ∧
                b ∈ bindings policy ∧ role b = "roles/owner".
Proof.
  assert (∀ pid bs (owners : gmap string (list string)),
    is_Some (foldl (add_binding pid) owners bs !! k) ↔
      is_Some (owners !! k) ∨ (k = pid ∧ ∃ b, b ∈ bs ∧ role b = "roles/owner"))
    as Hbs.
  { intros pid bs. induction bs as [|b bs IH]; intros owners; simpl.
    { split; [by left|]. intros [?|(_ & b & []%elem_of_nil & _)]. done. }
    rewrite IH, add_binding_key. setoid_rewrite elem_of_cons. split.
    - intros [[?|[-> ?]]|(-> & b' & ? & ?)]; [by left|right..]; eauto.
    - intros [?|(-> & b' & [->|?] & ?)]; [by left; left|by left; right|].
      right. eauto. }
  assert (∀ owners : gmap string (list string),
    is_Some (foldl add_policy owners policies !! k) ↔
      is_Some (owners !! k) ∨
      ∃ policy b, policy ∈ policies ∧ path_project (resource policy) = k ∧
                  b ∈ bindings policy ∧ role b = "roles/owner") as Hps.
  { induction policies as [|policy ps IH]; intros owners; simpl.
    { split; [by left|]. intros [?|(? & ? & []%elem_of_nil & _)]. done. }
    rewrite IH. unfold add_policy. rewrite Hbs.
    setoid_rewrite elem_of_cons. split.
    - intros [[?|(-> & b & ? & ?)]|(p & b & ? & ?)]; [by left|right..].
      + exists policy, b. tauto.
      + exists p, b. tauto.
    - intros [?|(p & b & [->|?] & <- & ?)]; [by left; left|..].
      + left; right. split; [done|]. exists b. tauto.
      + right. exists p, b. tauto. }
  unfold accumulate_owners. rewrite Hps, lookup_empty.
  split; [intros [[? [=]]|?]; done|by right].
Qed.

(** The keys of the mapping [fetch_project_owners] returns are the projects
    of the policies that have an owner-role binding, also one without a
    user; a policy without such a binding adds no key. *)
Theorem owners_keys `{SetOrder} api org_id w mapping w' :
  fetch_project_owners api org_id w = (Ok mapping, w') →
  ∀ k, is_Some (mapping !! k) ↔
    ∃ policy b,
      policy ∈ items (search_all_iam_policies api ("organizations/" +:+ org_id)) ∧
      path_project (resource policy) = k ∧
      b ∈ bindings policy ∧ role b = "roles/owner".
Proof.
  rewrite fetch_project_owners_run. destruct (failure _); [done|].
  intros [= <- <-] k. by rewrite lookup_fmap, fmap_is_Some, accumulate_owners_key.
Qed.

Lemma owners_keys_witness :
  let mapping : gmap string (list string) :=
    <["p3" := ["carol"; "bob"]]> {["p1" := ["alice"]]} in
  fetch_project_owners three_projects "123" start = (Ok mapping, start) ∧
  ∀ k, is_Some (mapping !! k) ↔
    ∃ policy b,
      policy ∈ items (search_all_iam_policies three_projects
                        ("organizations/" +:+ "123")) ∧
      path_project (resource policy) = k ∧
      b ∈ bindings policy ∧ role b = "roles/owner".
Proof.
  intros mapping.
  assert (fetch_project_owners three_projects "123" start = (Ok mapping, start))
    as Hrun by by vm_compute.
  split; [exact Hrun|].
  exact (owners_keys three_projects "123" start mapping start Hrun).
Defined.

(** [fetch_project_owners] and [fetch_inactive_project_numbers] read no
    dict and write nothing, and they raise only what their service raises:
    no resource path, role or member makes them fail. *)
Theorem fetches_fail_with_the_service `{SetOrder} api org_id w :
  (fetch_project_owners api org_id w).2 = w ∧
  (fetch_inactive_project_numbers api org_id w).2 = w ∧
  (∀ e, (fetch_project_owners api org_id w).1 = Raise e ↔
        failure (search_all_iam_policies api ("organizations/" +:+ org_id)) = Some e) ∧
  (∀ e, (fetch_inactive_project_numbers api org_id w).1 = Raise e ↔
        failure (list_recommendations api
          ("organizations/" +:+ org_id +:+
           "/locations/global/recommenders/google.resourcemanager.projectUtilization.Recommender")) = Some e).
Proof.
  rewrite fetch_project_owners_run, fetch_inactive_project_numbers_run. cbv zeta.
  split; [done|]. split; [done|]. simpl.
  split; intros e; destruct (failure _); split; congruence.
Qed.

Lemma setitem_owners_run p v w d :
  heap w !! p = Some d →
  setitem_owners p v w =
    (Ok tt, World (<[p := Project (project_id d) (project_number d) (display_name d)
                            (create_date d) (Some v) (inactive d)]> (heap w))
              (stdout w)).
Proof. intros Hp. unfold setitem_owners, bind, load, store. by rewrite Hp. Qed.

Lemma setitem_inactive_run p v w d :
  heap w !! p = Some d →
  setitem_inactive p v w =
    (Ok tt, World (<[p := Project (project_id d) (project_number d) (display_name d)
                            (create_date d) (owners d) (Some v)]> (heap w))
              (stdout w)).
Proof. intros Hp. unfold setitem_inactive, bind, load, store. by rewrite Hp. Qed.

(** [join_projects] on references into the heap never fails and writes
    nothing.  It completes every dict it is given a reference to, once or
    more often, from the dict's own [project_id] and [project_number], and
    changes no other dict and no other key. *)
Theorem join_projects_listed ps mapping flags w :
  Forall (λ p, p < length (heap w)) ps →
  ∃ w',
    join_projects ps mapping flags w = (Ok tt, w') ∧
    stdout w' = stdout w ∧
    length (heap w') = length (heap w) ∧
    ∀ p d, heap w !! p = Some d →
      heap w' !! p =
        Some (if decide (p ∈ ps)
              then Project (project_id d) (project_number d) (display_name d)
                     (create_date d)
                     (Some (default [] (mapping !! project_id d)))
                     (Some (bool_decide (project_number d ∈ flags)))
              else d).
Proof.
  unfold join_projects. revert w.
  induction ps as [|p ps IH]; intros w Hps; simpl.
  { exists w. by repeat split. }
  apply Forall_cons in Hps as [Hp Hps].
  destruct (lookup_lt_is_Some_2 (heap w) p Hp) as [d0 Hd0].
  set (w1 := World (<[p := joined mapping flags d0]> (heap w)) (stdout w)).
  erewrite bind_ok; cycle 1.
  { instantiate (1 := w1). instantiate (1 := tt).
    erewrite bind_ok by by eapply getitem_run.
    erewrite bind_ok by by eapply setitem_owners_run.
    erewrite bind_ok
      by (eapply getitem_run; simpl; by apply list_lookup_insert_eq).
    erewrite setitem_inactive_run
      by (simpl; by apply list_lookup_insert_eq).
    simpl. unfold w1. by rewrite list_insert_insert_eq. }
  destruct (IH w1) as (w' & Hrun & Hout & Hlen & Hheap).
  { simpl. by rewrite length_insert. }
  exists w'. split; [done|]. split; [done|]. split.
  { rewrite Hlen. simpl. by rewrite length_insert. }
  intros q d Hq. destruct (decide (q = p)) as [->|Hne].
  - rewrite Hd0 in Hq. injection Hq as ->.
    rewrite (Hheap p (joined mapping flags d)); cycle 1.
    { simpl. by rewrite list_lookup_insert_eq. }
    rewrite (decide_True (P := p ∈ p :: ps)) by by left.
    by destruct (decide (p ∈ ps)).
  - rewrite (Hheap q d); cycle 1.
    { simpl. by rewrite list_lookup_insert_ne. }
    destruct (decide (q ∈ ps)) as [Hin|Hin].
    + rewrite decide_True; [done|by right].
    + rewrite decide_False; [done|]. rewrite elem_of_cons. tauto.
Qed.

Lemma join_projects_listed_witness :
  let w := (fetch_projects three_projects "123" start).2 in
  Forall (λ p, p < length (heap w)) [2; 0; 2] ∧
  ∃ w', join_projects [2; 0; 2] ∅ {["3"]} w = (Ok tt, w') ∧
        stdout w' = stdout w ∧ length (heap w') = length (heap w).
Proof.
  intros w.
  assert (Forall (λ p, p < length (heap w)) [2; 0; 2]) as Hps.
  { repeat constructor. }
  split; [exact Hps|].
  destruct (join_projects_listed [2; 0; 2] ∅ {["3"]} w Hps) as (w' & ? & ? & ? & _).
  by exists w'.
Defined.

(** The flag changes the text only: with it and without it [main] ends in
    the same way, leaves the same dicts and writes as many lines. *)
Theorem flag_changes_text_only `{SetOrder} api org_id :
  (main api org_id true start).1 = (main api org_id false start).1 ∧
  heap (main api org_id true start).2 = heap (main api org_id false start).2 ∧
  length (stdout (main api org_id true start).2) =
    length (stdout (main api org_id false start).2).
Proof.
  rewrite !main_report. unfold report.
  destruct (fetch_projects api org_id start) as [[ps|e] w1]; [|done].
  destruct (failure (search_all_iam_policies _ _)); [done|].
  destruct (failure (list_recommendations _ _)); [done|].
  cbv zeta. destruct (joined _ _ <$> heap w1) as [|j js]; [done|].
  split; [done|]. split; [done|]. unfold table. simpl. by rewrite !length_fmap.
Qed.
